(** * claude-go-adk: the Anthropic adapter for the ADK model interface

    A shallow embedding of the adapter's conversion layer ([convert.go] and
    its method-based successor) and of its invocation layer
    ([GenerateContent], [generateStream], [textDelta]), with the properties
    its specification states about them.

    Conventions of the embedding:
    - Go strings are [string]; the typed strings [anthropic.StopReason],
      [genai.FinishReason] and the role names are strings as well.
    - [int32] and [int64] are [Z] with the wrap-around of Go's conversions
      and additions written out.
    - A Go pointer that the code may receive as nil is an [option]; a
      function that dereferences such a pointer returns [option], and
      [None] stands for the nil-pointer panic.
    - Go maps are stdpp's [gmap], Go slices are lists; a nil map and an
      empty map are both [∅], a nil slice and an empty slice are both [[]]
      (the code only reads them and takes their length).
    - Logging is modelled by what evaluating the logged expressions can
      do to the control flow (a nil dereference); the log text is not. *)

From Stdlib Require Import ZArith Ascii String SpecFloat.
From stdpp Require Import gmap strings list fin_maps.

Set Warnings "-register-all".
Local Open Scope Z_scope.

(** ** Go integers and floats *)

Module GoInt.

(** [int64(z)]: the representative of [z] modulo 2^64 in the signed range. *)
Definition int64 (z : Z) : Z := (z + 2 ^ 63) mod 2 ^ 64 - 2 ^ 63.

(** [int32(z)]: the low 32 bits of [z], read as a signed number. *)
Definition int32 (z : Z) : Z := (z + 2 ^ 31) mod 2 ^ 32 - 2 ^ 31.

(** [a + b] on [int64] operands. *)
Definition add64 (a b : Z) : Z := int64 (a + b).

Definition in_int32 (z : Z) : Prop := - 2 ^ 31 <= z < 2 ^ 31.
Definition in_int64 (z : Z) : Prop := - 2 ^ 63 <= z < 2 ^ 63.

End GoInt.

Module GoFloat.

(** A [float32] or [float64] value, as the number it denotes. *)
Definition float := spec_float.

(** [float64(x)] for a [float32] [x]: exact, the value is unchanged and
    its mantissa is re-aligned to 53 bits. *)
Definition float64_of_float32 (x : float) : float :=
  match x with
  | S754_finite s m e =>
      let k := (53 - Z.log2 (Z.pos m) - 1)%Z in
      match k with
      | Z.pos p => S754_finite s (Pos.shiftl m (Npos p)) (e - k)
      | _ => x
      end
  | _ => x
  end.

End GoFloat.

(** ** Go strings *)

Module Strings.

Definition newline : string := String "010"%char EmptyString.

Definition lowerAscii (c : ascii) : ascii :=
  let n := nat_of_ascii c in
  if ((65 <=? n) && (n <=? 90))%nat then ascii_of_nat (n + 32) else c.

(** [strings.ToLower] on ASCII text (the [genai.Type] names are ASCII). *)
Fixpoint ToLower (s : string) : string :=
  match s with
  | EmptyString => EmptyString
  | String c rest => String (lowerAscii c) (ToLower rest)
  end.

(** [strings.Join(elems, sep)]. *)
Definition Join (elems : list string) (sep : string) : string :=
  String.concat sep elems.

End Strings.

(** ** Go errors *)

(** An [error] value: a base error with its message, or an error wrapped by
    [fmt.Errorf(prefix + "%w", err)]. *)
Inductive error : Type :=
| ErrorString (msg : string)
| Errorf_w (prefix : string) (err : error).

(** The [Error()] text. *)
Fixpoint Error (e : error) : string :=
  match e with
  | ErrorString msg => msg
  | Errorf_w prefix err => prefix +:+ Error err
  end.

(** [errors.Unwrap]. *)
Definition Unwrap (e : error) : option error :=
  match e with
  | ErrorString _ => None
  | Errorf_w _ err => Some err
  end.

(** ** Dynamic values

    The values of Go's [any] that the adapter inspects or passes on: the
    ones [encoding/json] decodes into ([nil], [bool], [float64], [string],
    [[]any], [map[string]any]) and [[]string], which [schemaToMap] stores
    and [extractTools] asserts on. *)
Inductive any : Type :=
| ANil
| ABool (b : bool)
| AFloat64 (f : GoFloat.float)
| AString (s : string)
| AStrings (l : list string)
| ASlice (l : list any)
| AMap (m : gmap string any).

(** [m[k]] on a [map[string]any]: the zero value [nil] for a missing key. *)
Definition index (m : gmap string any) (k : string) : any :=
  default ANil (m !! k).

(** [encoding/json], which the adapter calls and does not implement:
    [jsonMarshal v] is the text [json.Marshal(v)] returns (it cannot fail on
    the values of [any] above), and [jsonUnmarshalMap s] is what
    [json.Unmarshal(s, &m)] leaves in a nil [m : map[string]any]: [Some m]
    when it returns no error (the text [null] leaves [m] nil), [None] when
    it returns one (and [m] is then still nil). *)
Class JSONCodec := {
  jsonMarshal : any → string;
  jsonUnmarshalMap : string → option (gmap string any)
}.

(** ** genai: the framework's conversation model *)

Module genai.

(** [genai.FinishReason] values the adapter produces. *)
Definition FinishReasonStop : string := "STOP".
Definition FinishReasonMaxTokens : string := "MAX_TOKENS".
Definition FinishReasonOther : string := "OTHER".

(** [genai.Schema], the fields [schemaToMap] reads. *)
Inductive Schema : Type := mkSchema {
  schemaType : string;
  schemaDescription : string;
  schemaProperties : gmap string (option Schema);
  schemaRequired : list string;
  schemaEnum : list string;
  schemaItems : option Schema
}.

Record FunctionDeclaration := mkFunctionDeclaration {
  fdName : string;
  fdDescription : string;
  fdParameters : option Schema;
  fdParametersJsonSchema : any
}.

Record Tool := mkTool {
  FunctionDeclarations : list (option FunctionDeclaration)
}.

Record FunctionCall := mkFunctionCall {
  fcID : string;
  fcName : string;
  fcArgs : gmap string any
}.

Record FunctionResponse := mkFunctionResponse {
  frID : string;
  frName : string;
  frResponse : gmap string any
}.

Record Part := mkPart {
  Text : string;
  PartFunctionCall : option FunctionCall;
  PartFunctionResponse : option FunctionResponse
}.

Record Content := mkContent {
  Role : string;
  Parts : list (option Part)
}.

Record GenerateContentConfig := mkGenerateContentConfig {
  SystemInstruction : option Content;
  MaxOutputTokens : Z;
  Temperature : option GoFloat.float;
  TopP : option GoFloat.float;
  StopSequences : list string;
  Tools : list (option Tool)
}.

(** [genai.GenerateContentResponseUsageMetadata], the fields the adapter
    sets. *)
Record UsageMetadata := mkUsageMetadata {
  PromptTokenCount : Z;
  CandidatesTokenCount : Z;
  TotalTokenCount : Z
}.

End genai.

(** ** anthropic: the provider's message API *)

Module anthropic.

(** [anthropic.StopReason] values. *)
Definition StopReasonEndTurn : string := "end_turn".
Definition StopReasonMaxTokens : string := "max_tokens".
Definition StopReasonStopSequence : string := "stop_sequence".
Definition StopReasonToolUse : string := "tool_use".
Definition StopReasonPauseTurn : string := "pause_turn".
Definition StopReasonRefusal : string := "refusal".

Record TextBlockParam := mkTextBlockParam {
  tbType : string;
  tbText : string
}.

(** The request-side content blocks the adapter builds, by constructor:
    [NewTextBlock(text)], [NewToolUseBlock(id, input, name)] and
    [NewToolResultBlock(toolUseID, content, isError)]. *)
Inductive ContentBlockParamUnion : Type :=
| NewTextBlock (text : string)
| NewToolUseBlock (id : string) (input : any) (name : string)
| NewToolResultBlock (toolUseID : string) (content : string) (isError : bool).

Record MessageParam := mkMessageParam {
  mpRole : string;
  mpContent : list ContentBlockParamUnion
}.

Definition NewAssistantMessage (blocks : list ContentBlockParamUnion) :=
  {| mpRole := "assistant"; mpContent := blocks |}.

Definition NewUserMessage (blocks : list ContentBlockParamUnion) :=
  {| mpRole := "user"; mpContent := blocks |}.

Record ToolInputSchemaParam := mkToolInputSchemaParam {
  isType : string;
  isProperties : any;
  isRequired : list string
}.

Record ToolParam := mkToolParam {
  tpName : string;
  tpDescription : string;
  tpInputSchema : ToolInputSchemaParam
}.

Record ToolChoiceAutoParam := mkToolChoiceAutoParam {
  tcType : string;
  tcDisableParallelToolUse : bool
}.

Record MessageNewParams := mkMessageNewParams {
  Model : string;
  MaxTokens : Z;
  Messages : list MessageParam;
  System : list TextBlockParam;
  ParamTemperature : option GoFloat.float;
  ParamTopP : option GoFloat.float;
  ParamStopSequences : list string;
  ParamTools : list ToolParam;
  ToolChoice : option ToolChoiceAutoParam
}.

(** [anthropic.Usage], the two counters the adapter reads. *)
Record Usage := mkUsage {
  InputTokens : Z;
  OutputTokens : Z
}.

(** [anthropic.ContentBlockUnion], a reply's content block: the fields the
    adapter reads ([Input] is the raw JSON text). *)
Record ContentBlockUnion := mkContentBlockUnion {
  cbType : string;
  cbText : string;
  cbID : string;
  cbName : string;
  cbInput : string
}.

Record Message := mkMessage {
  MsgContent : list ContentBlockUnion;
  StopReason : string;
  MsgUsage : Usage
}.

(** The zero [Message] ([var msg anthropic.Message]). *)
Definition zeroMessage : Message :=
  {| MsgContent := []; StopReason := EmptyString;
     MsgUsage := {| InputTokens := 0; OutputTokens := 0 |} |}.

(** The delta of a stream event ([event.Delta]). *)
Record EventDelta := mkEventDelta {
  edType : string;
  edText : string;
  edPartialJSON : string;
  edStopReason : string
}.

(** [anthropic.MessageStreamEventUnion]: the flattened union of the stream
    events, with the fields that the adapter and the accumulator read. *)
Record MessageStreamEventUnion := mkEvent {
  evType : string;
  evMessage : Message;
  evContentBlock : ContentBlockUnion;
  evDelta : EventDelta;
  evUsageOutputTokens : Z
}.

(** A finished streaming session: the events [stream.Next()] delivered, in
    order, and the error [stream.Err()] reports after the last one. *)
Record Stream := mkStream {
  stEvents : list MessageStreamEventUnion;
  stErr : option error
}.

(** The provider as the adapter sees it: [client.Messages.New] and
    [client.Messages.NewStreaming], as functions of the call parameters. *)
Record Client := mkClient {
  MessagesNew : MessageNewParams → Message + error;
  MessagesNewStreaming : MessageNewParams → Stream
}.

End anthropic.

(** ** model: the framework's request and response *)

Module model.

Record LLMRequest := mkLLMRequest {
  Contents : list (option genai.Content);
  Config : option genai.GenerateContentConfig
}.

Record LLMResponse := mkLLMResponse {
  respContent : option genai.Content;
  respFinishReason : string;
  respUsageMetadata : option genai.UsageMetadata;
  Partial : bool;
  TurnComplete : bool
}.

End model.

Import genai anthropic model.

(** ** The adapter *)

(** [claudeModel]: the model name and the provider client (the logger and
    the SDK options do not influence the conversions). *)
Record claudeModel := mkClaudeModel {
  name : string;
  client : Client
}.

(** What an iterator passes to [yield]: a response or nil, an error or
    nil. *)
Definition Yielded : Type := option LLMResponse * option error.

(** The loop body that consumes the iterator, seen from the adapter: given
    everything yielded so far, the last element being the current one, the
    value that [yield] returns ([false] when the consumer stops). *)
Definition Consumer : Type := list Yielded → bool.

(** The consumer that never stops. *)
Definition drain : Consumer := λ _, true.

Definition defaultMaxTokens : Z := 8192.

Definition stopToFinish (reason : string) : string :=
  if decide (reason = StopReasonEndTurn) then FinishReasonStop
  else if decide (reason = StopReasonMaxTokens) then FinishReasonMaxTokens
  else if decide (reason = StopReasonToolUse) then FinishReasonStop
  else FinishReasonOther.

Definition usageToMetadata (u : Usage) : UsageMetadata :=
  {| PromptTokenCount := GoInt.int32 (InputTokens u);
     CandidatesTokenCount := GoInt.int32 (OutputTokens u);
     TotalTokenCount :=
       GoInt.int32 (GoInt.add64 (InputTokens u) (OutputTokens u)) |}.

(** [schemaToMap] on a non-nil schema; [schemaToMap] below adds the nil
    case. The recursive calls go through the same nil test. *)
Fixpoint schemaToMap_nonnil (s : Schema) : gmap string any :=
  let sub (v : option Schema) : gmap string any :=
    match v with
    | None => {[ "type" := AString "object" ]}
    | Some s' => schemaToMap_nonnil s'
    end in
  let m : gmap string any :=
    {[ "type" := AString (Strings.ToLower (schemaType s)) ]} in
  let m := if decide (schemaDescription s = EmptyString) then m
           else <[ "description" := AString (schemaDescription s) ]> m in
  let m := if decide (size (schemaProperties s) = 0%nat) then m
           else <[ "properties" :=
                   AMap ((λ v, AMap (sub v)) <$> schemaProperties s) ]> m in
  let m := if decide (length (schemaRequired s) = 0%nat) then m
           else <[ "required" := AStrings (schemaRequired s) ]> m in
  let m := if decide (length (schemaEnum s) = 0%nat) then m
           else <[ "enum" := AStrings (schemaEnum s) ]> m in
  match schemaItems s with
  | None => m
  | Some s' => <[ "items" := AMap (schemaToMap_nonnil s') ]> m
  end.

Definition schemaToMap (s : option Schema) : gmap string any :=
  match s with
  | None => {[ "type" := AString "object" ]}
  | Some s' => schemaToMap_nonnil s'
  end.

(** [systemFromContent]: the loop that collects the non-empty texts, then
    the join. *)
Fixpoint systemFromContent_loop (ps : list (option Part)) (parts : list string)
  : option (list string) :=
  match ps with
  | [] => Some parts
  | p :: rest =>
      p ← p;
      systemFromContent_loop rest
        (if decide (Text p = EmptyString) then parts else parts ++ [Text p])
  end.

Definition systemFromContent (c : Content) : option (list TextBlockParam) :=
  parts ← systemFromContent_loop (Parts c) [];
  Some (if decide (length parts = 0%nat) then []
        else [ {| tbType := "text";
                  tbText := Strings.Join parts Strings.newline |} ]).

(** Field assignments on a [ToolInputSchemaParam]. *)
Definition setProperties (i : ToolInputSchemaParam) (v : any) :=
  {| isType := isType i; isProperties := v; isRequired := isRequired i |}.

Definition setRequired (i : ToolInputSchemaParam) (req : list string) :=
  {| isType := isType i; isProperties := isProperties i; isRequired := req |}.

(** The strings of a [[]any], in order ([r.(string)] for each element). *)
Fixpoint stringsOf (raw : list any) : list string :=
  match raw with
  | [] => []
  | AString s :: rest => s :: stringsOf rest
  | _ :: rest => stringsOf rest
  end.

(** ** convert.go: the free-function version

    [convert.go] is the earlier version of the conversion layer. Its
    [stopToFinish], [usageToMetadata], [schemaToMap], [systemFromContent],
    [contentsToMessages] and [partsToBlocks] are the ones of the method
    version word for word (up to the logger argument); its [extractTools]
    differs and is embedded here. *)
Module convert.

Fixpoint extractTools_decls (fds : list (option FunctionDeclaration))
    (result : list ToolParam) : option (list ToolParam) :=
  match fds with
  | [] => Some result
  | fd :: rest =>
      fd ← fd;
      let schema := schemaToMap (fdParameters fd) in
      let inputSchema :=
        {| isType := "object";
           isProperties := index schema "properties";
           isRequired := [] |} in
      let inputSchema :=
        match index schema "required" with
        | AStrings req => setRequired inputSchema req
        | _ => inputSchema
        end in
      extractTools_decls rest
        (result ++ [ {| tpName := fdName fd;
                        tpDescription := fdDescription fd;
                        tpInputSchema := inputSchema |} ])
  end.

Fixpoint extractTools_loop (tools : list (option Tool))
    (result : list ToolParam) : option (list ToolParam) :=
  match tools with
  | [] => Some result
  | t :: rest =>
      t ← t;
      result ← extractTools_decls (FunctionDeclarations t) result;
      extractTools_loop rest result
  end.

Definition extractTools (tools : list (option Tool)) : option (list ToolParam) :=
  extractTools_loop tools [].

End convert.

(** ** The method version (the adapter proper) *)

Section Adapter.

Context `{JSONCodec}.

Fixpoint partsToBlocks_loop (parts : list (option Part))
    (blocks : list ContentBlockParamUnion)
  : option (list ContentBlockParamUnion) :=
  match parts with
  | [] => Some blocks
  | p :: rest =>
      p ← p;
      partsToBlocks_loop rest
        (if decide (Text p ≠ EmptyString) then
           blocks ++ [NewTextBlock (Text p)]
         else
           match PartFunctionCall p with
           | Some fc =>
               blocks ++
                 [NewToolUseBlock (fcID fc) (AMap (fcArgs fc)) (fcName fc)]
           | None =>
               match PartFunctionResponse p with
               | Some fr =>
                   let content := jsonMarshal (AMap (frResponse fr)) in
                   blocks ++ [NewToolResultBlock (frID fr) content false]
               | None => blocks
               end
           end)
  end.

Definition partsToBlocks (parts : list (option Part))
  : option (list ContentBlockParamUnion) :=
  partsToBlocks_loop parts [].

Fixpoint contentsToMessages_loop (contents : list (option Content))
    (msgs : list MessageParam) : option (list MessageParam) :=
  match contents with
  | [] => Some msgs
  | None :: rest => contentsToMessages_loop rest msgs
  | Some c :: rest =>
      blocks ← partsToBlocks (Parts c);
      if decide (length blocks = 0%nat) then contentsToMessages_loop rest msgs
      else if decide (Role c = "model" ∨ Role c = "assistant") then
        contentsToMessages_loop rest (msgs ++ [NewAssistantMessage blocks])
      else
        contentsToMessages_loop rest (msgs ++ [NewUserMessage blocks])
  end.

Definition contentsToMessages (contents : list (option Content))
  : option (list MessageParam) :=
  contentsToMessages_loop contents [].

Fixpoint extractTools_decls (fds : list (option FunctionDeclaration))
    (result : list ToolParam) : option (list ToolParam) :=
  match fds with
  | [] => Some result
  | fd :: rest =>
      fd ← fd;
      let inputSchema :=
        {| isType := "object"; isProperties := ANil; isRequired := [] |} in
      let inputSchema :=
        match fdParameters fd with
        | Some s =>
            let schema := schemaToMap (Some s) in
            let inputSchema :=
              setProperties inputSchema (index schema "properties") in
            match index schema "required" with
            | AStrings req => setRequired inputSchema req
            | _ => inputSchema
            end
        | None =>
            match fdParametersJsonSchema fd with
            | ANil => inputSchema
            | pjs =>
                let schemaBytes := jsonMarshal pjs in
                match jsonUnmarshalMap schemaBytes with
                | Some schemaMap =>
                    let inputSchema :=
                      setProperties inputSchema (index schemaMap "properties") in
                    match index schemaMap "required" with
                    | ASlice raw => setRequired inputSchema (stringsOf raw)
                    | _ => inputSchema
                    end
                | None => inputSchema
                end
            end
        end in
      extractTools_decls rest
        (result ++ [ {| tpName := fdName fd;
                        tpDescription := fdDescription fd;
                        tpInputSchema := inputSchema |} ])
  end.

Fixpoint extractTools_loop (tools : list (option Tool))
    (result : list ToolParam) : option (list ToolParam) :=
  match tools with
  | [] => Some result
  | t :: rest =>
      t ← t;
      result ← extractTools_decls (FunctionDeclarations t) result;
      extractTools_loop rest result
  end.

Definition extractTools (tools : list (option Tool)) : option (list ToolParam) :=
  extractTools_loop tools [].

(** The debug loop at the head of [buildParams]: it reads [c.Role],
    [len(c.Parts)] and, for every part, [p.Text], [p.FunctionCall] and
    [p.FunctionResponse]. *)
Fixpoint logParts (parts : list (option Part)) : option () :=
  match parts with
  | [] => Some ()
  | p :: rest => _ ← p; logParts rest
  end.

Fixpoint logContents (contents : list (option Content)) : option () :=
  match contents with
  | [] => Some ()
  | c :: rest => c ← c; _ ← logParts (Parts c); logContents rest
  end.

(** Field assignments on the call parameters. *)
Definition setSystem (p : MessageNewParams) (sys : list TextBlockParam) :=
  mkMessageNewParams (Model p) (MaxTokens p) (Messages p) sys
    (ParamTemperature p) (ParamTopP p) (ParamStopSequences p) (ParamTools p)
    (ToolChoice p).

Definition setMaxTokens (p : MessageNewParams) (n : Z) :=
  mkMessageNewParams (Model p) n (Messages p) (System p)
    (ParamTemperature p) (ParamTopP p) (ParamStopSequences p) (ParamTools p)
    (ToolChoice p).

Definition setTemperature (p : MessageNewParams) (t : GoFloat.float) :=
  mkMessageNewParams (Model p) (MaxTokens p) (Messages p) (System p)
    (Some t) (ParamTopP p) (ParamStopSequences p) (ParamTools p)
    (ToolChoice p).

Definition setTopP (p : MessageNewParams) (t : GoFloat.float) :=
  mkMessageNewParams (Model p) (MaxTokens p) (Messages p) (System p)
    (ParamTemperature p) (Some t) (ParamStopSequences p) (ParamTools p)
    (ToolChoice p).

Definition setStopSequences (p : MessageNewParams) (l : list string) :=
  mkMessageNewParams (Model p) (MaxTokens p) (Messages p) (System p)
    (ParamTemperature p) (ParamTopP p) l (ParamTools p) (ToolChoice p).

Definition setTools (p : MessageNewParams) (tools : list ToolParam) :=
  mkMessageNewParams (Model p) (MaxTokens p) (Messages p) (System p)
    (ParamTemperature p) (ParamTopP p) (ParamStopSequences p) tools
    (Some {| tcType := "auto"; tcDisableParallelToolUse := true |}).

Definition buildParams (m : claudeModel) (req : LLMRequest)
  : option MessageNewParams :=
  _ ← logContents (Contents req);
  msgs ← contentsToMessages (Contents req);
  let params :=
    {| Model := name m; MaxTokens := defaultMaxTokens; Messages := msgs;
       System := []; ParamTemperature := None; ParamTopP := None;
       ParamStopSequences := []; ParamTools := []; ToolChoice := None |} in
  match Config req with
  | None => Some params
  | Some cfg =>
      params ←
        match SystemInstruction cfg with
        | Some c =>
            sys ← systemFromContent c;
            Some (if decide (0 < length sys)%nat then setSystem params sys
                  else params)
        | None => Some params
        end;
      let params :=
        if decide (0 < MaxOutputTokens cfg)
        then setMaxTokens params (GoInt.int64 (MaxOutputTokens cfg))
        else params in
      let params :=
        match Temperature cfg with
        | Some t => setTemperature params (GoFloat.float64_of_float32 t)
        | None => params
        end in
      let params :=
        match TopP cfg with
        | Some t => setTopP params (GoFloat.float64_of_float32 t)
        | None => params
        end in
      let params :=
        if decide (0 < length (StopSequences cfg))%nat
        then setStopSequences params (StopSequences cfg)
        else params in
      tools ← extractTools (Tools cfg);
      Some (if decide (0 < length tools)%nat then setTools params tools
            else params)
  end.

Fixpoint messageToLLMResponse_loop (content : list ContentBlockUnion)
    (parts : list (option Part)) : list (option Part) :=
  match content with
  | [] => parts
  | block :: rest =>
      messageToLLMResponse_loop rest
        (if decide (cbType block = "text") then
           parts ++ [Some {| Text := cbText block; PartFunctionCall := None;
                             PartFunctionResponse := None |}]
         else if decide (cbType block = "tool_use") then
           let args := default ∅ (jsonUnmarshalMap (cbInput block)) in
           parts ++ [Some {| Text := EmptyString;
                             PartFunctionCall :=
                               Some {| fcID := cbID block;
                                       fcName := cbName block;
                                       fcArgs := args |};
                             PartFunctionResponse := None |}]
         else parts)
  end.

Definition messageToLLMResponse (msg : Message) : LLMResponse :=
  {| respContent :=
       Some {| Role := "model";
               Parts := messageToLLMResponse_loop (MsgContent msg) [] |};
     respFinishReason := stopToFinish (StopReason msg);
     respUsageMetadata := Some (usageToMetadata (MsgUsage msg));
     Partial := false;
     TurnComplete := false |}.

(** [textDelta] extracts text from a content_block_delta event, if
    present. *)
Definition textDelta (event : MessageStreamEventUnion) : string * bool :=
  if decide (evType event ≠ "content_block_delta") then (EmptyString, false)
  else
    let delta := evDelta event in
    if decide (edType delta = "text_delta") then (edText delta, true)
    else (EmptyString, false).

(** *** The SDK's accumulator

    [anthropic.Message.Accumulate] belongs to the provider's SDK, not to
    the adapter. The definition below follows the SDK on the fields the
    adapter reads back (the blocks' type, text, id, name and input, the
    stop reason and the usage): [message_start] replaces the message,
    [message_delta] sets the stop reason and the output tokens,
    [content_block_start] appends the event's block, [content_block_delta]
    extends the last block, and a delta or a stop without any block is an
    error. *)
Definition noContentBlock (ty : string) : error :=
  ErrorString
    ("received event of type " +:+ ty +:+ " but there was no content block").

Definition setMsgContent (acc : Message) (content : list ContentBlockUnion) :=
  {| MsgContent := content; StopReason := StopReason acc;
     MsgUsage := MsgUsage acc |}.

Definition setText (cb : ContentBlockUnion) (text : string) :=
  {| cbType := cbType cb; cbText := text; cbID := cbID cb;
     cbName := cbName cb; cbInput := cbInput cb |}.

Definition setInput (cb : ContentBlockUnion) (input : string) :=
  {| cbType := cbType cb; cbText := cbText cb; cbID := cbID cb;
     cbName := cbName cb; cbInput := input |}.

Definition applyDelta (cb : ContentBlockUnion) (delta : EventDelta)
  : ContentBlockUnion :=
  if decide (edType delta = "text_delta") then
    setText cb (cbText cb +:+ edText delta)
  else if decide (edType delta = "input_json_delta") then
    if decide (edPartialJSON delta = EmptyString) then cb
    else if decide (cbInput cb = "{}") then setInput cb (edPartialJSON delta)
    else setInput cb (cbInput cb +:+ edPartialJSON delta)
  else cb.

Definition Accumulate (acc : Message) (event : MessageStreamEventUnion)
  : Message + error :=
  let ty := evType event in
  if decide (ty = "message_start") then inl (evMessage event)
  else if decide (ty = "message_delta") then
    inl {| MsgContent := MsgContent acc;
           StopReason := edStopReason (evDelta event);
           MsgUsage := {| InputTokens := InputTokens (MsgUsage acc);
                          OutputTokens := evUsageOutputTokens event |} |}
  else if decide (ty = "content_block_start") then
    inl (setMsgContent acc (MsgContent acc ++ [evContentBlock event]))
  else if decide (ty = "content_block_delta") then
    match last (MsgContent acc) with
    | None => inr (noContentBlock ty)
    | Some cb =>
        inl (setMsgContent acc
               (removelast (MsgContent acc) ++ [applyDelta cb (evDelta event)]))
    end
  else if decide (ty = "content_block_stop") then
    match last (MsgContent acc) with
    | None => inr (noContentBlock ty)
    | Some _ => inl acc
    end
  else inl acc.

(** *** The invocation layer *)

Definition setTurnComplete (resp : LLMResponse) (b : bool) : LLMResponse :=
  {| respContent := respContent resp;
     respFinishReason := respFinishReason resp;
     respUsageMetadata := respUsageMetadata resp;
     Partial := Partial resp;
     TurnComplete := b |}.

(** The response that carries one text delta. *)
Definition partialResponse (delta : string) : LLMResponse :=
  {| respContent :=
       Some {| Role := "model";
               Parts := [Some {| Text := delta; PartFunctionCall := None;
                                 PartFunctionResponse := None |}] |};
     respFinishReason := EmptyString;
     respUsageMetadata := None;
     Partial := true;
     TurnComplete := false |}.

(** The body of the iterator [generateStream] returns: [events] are the
    events still to come, [msg] the message accumulated so far and [out]
    what has been yielded so far. The result is everything yielded when the
    iterator returns. *)
Fixpoint generateStream_loop (yield : Consumer)
    (events : list MessageStreamEventUnion) (err : option error)
    (msg : Message) (out : list Yielded) : list Yielded :=
  match events with
  | [] =>
      match err with
      | Some err => out ++ [(None, Some (Errorf_w "claude: stream: " err))]
      | None =>
          let resp := messageToLLMResponse msg in
          let resp := setTurnComplete resp true in
          out ++ [(Some resp, None)]
      end
  | event :: rest =>
      match Accumulate msg event with
      | inr err => out ++ [(None, Some (Errorf_w "claude: accumulate: " err))]
      | inl msg =>
          match textDelta event with
          | (delta, true) =>
              let resp := partialResponse delta in
              let out := out ++ [(Some resp, None)] in
              if yield out then generateStream_loop yield rest err msg out
              else out
          | (_, false) => generateStream_loop yield rest err msg out
          end
      end
  end.

Definition generateStream (m : claudeModel) (params : MessageNewParams)
    (yield : Consumer) : list Yielded :=
  let stream := MessagesNewStreaming (client m) params in
  generateStream_loop yield (stEvents stream) (stErr stream) zeroMessage [].

(** [GenerateContent]: [None] when building the parameters panics, else
    everything the returned iterator yields to [yield]. *)
Definition GenerateContent (m : claudeModel) (req : LLMRequest) (stream : bool)
    (yield : Consumer) : option (list Yielded) :=
  params ← buildParams m req;
  if stream then Some (generateStream m params yield)
  else
    Some (match MessagesNew (client m) params with
          | inr err => [(None, Some (Errorf_w "claude: " err))]
          | inl msg => [(Some (messageToLLMResponse msg), None)]
          end).

End Adapter.

(** ** Notions used in the statements *)

(** *** Requests without nil pointers

    The loops of the request mapper dereference every part, tool and
    function declaration they visit, and the debug loop of [buildParams]
    every content. A request is valid when none of these pointers is nil
    and [MaxOutputTokens] is an [int32]. *)
Definition isSome {A} (o : option A) : bool :=
  match o with Some _ => true | None => false end.

Definition noNilParts (parts : list (option Part)) : bool :=
  forallb isSome parts.

Definition noNilContents (contents : list (option Content)) : bool :=
  forallb (λ c, match c with
                | Some c => noNilParts (Parts c)
                | None => false
                end) contents.

Definition noNilTools (tools : list (option Tool)) : bool :=
  forallb (λ t, match t with
                | Some t => forallb isSome (FunctionDeclarations t)
                | None => false
                end) tools.

Definition validConfig (cfg : GenerateContentConfig) : bool :=
  match SystemInstruction cfg with
  | Some c => noNilParts (Parts c)
  | None => true
  end
  && noNilTools (Tools cfg)
  && bool_decide (GoInt.in_int32 (MaxOutputTokens cfg)).

Definition validRequest (req : LLMRequest) : bool :=
  noNilContents (Contents req)
  && match Config req with
     | Some cfg => validConfig cfg
     | None => true
     end.

(** Every function declaration carries a structured [Parameters] schema. *)
Definition allStructured (tools : list (option Tool)) : bool :=
  forallb (λ t, match t with
                | Some t =>
                    forallb (λ fd, match fd with
                                   | Some fd => isSome (fdParameters fd)
                                   | None => true
                                   end) (FunctionDeclarations t)
                | None => true
                end) tools.

(** *** Roles *)

(** The provider role for a content: assistant for the roles "model" and
    "assistant", user for every other role. *)
Definition roleOf (c : Content) : string :=
  if decide (Role c = "model" ∨ Role c = "assistant") then "assistant"
  else "user".

(** *** Texts *)

(** The non-empty texts of the non-nil parts of a content, in order. *)
Definition nonEmptyTexts (c : Content) : list string :=
  filter (λ s, s ≠ EmptyString) (omap (fmap Text) (Parts c)).

(** A part that is empty for the request mapper: no text, no function
    call, no function response. *)
Definition emptyPart (p : option Part) : bool :=
  match p with
  | Some p =>
      bool_decide (Text p = EmptyString)
      && negb (isSome (PartFunctionCall p))
      && negb (isSome (PartFunctionResponse p))
  | None => false
  end.

(** Strings put end to end. *)
Definition joinAll (l : list string) : string :=
  foldr String.append EmptyString l.

(** The text of a response: the texts of its parts, concatenated. *)
Definition partsText (parts : list (option Part)) : string :=
  joinAll (omap (fmap Text) parts).

Definition responseText (resp : LLMResponse) : string :=
  match respContent resp with
  | Some c => partsText (Parts c)
  | None => EmptyString
  end.

(** The text of a provider message: the texts of its text blocks. *)
Definition blocksText (content : list ContentBlockUnion) : string :=
  joinAll (cbText <$> filter (λ b, cbType b = "text") content).

Definition messageText (msg : Message) : string :=
  blocksText (MsgContent msg).

(** *** Function calls *)

(** The part that holds a function call and nothing else. *)
Definition functionCallPart (fc : FunctionCall) : Part :=
  {| Text := EmptyString; PartFunctionCall := Some fc;
     PartFunctionResponse := None |}.

(** The part the response mapper builds for a tool_use block. *)
Definition toolUsePart `{JSONCodec} (block : ContentBlockUnion) : Part :=
  functionCallPart
    {| fcID := cbID block; fcName := cbName block;
       fcArgs := default ∅ (jsonUnmarshalMap (cbInput block)) |}.



(** *** Streams *)

(** The text deltas of a sequence of events, in order. *)
Definition textDeltas (events : list MessageStreamEventUnion) : list string :=
  omap (λ e, let '(delta, ok) := textDelta e in
             if ok then Some delta else None) events.

(** The message accumulated from a sequence of events, or the first error
    of the accumulator. *)
Fixpoint accumulateAll (msg : Message) (events : list MessageStreamEventUnion)
  : Message + error :=
  match events with
  | [] => inl msg
  | e :: rest =>
      match Accumulate msg e with
      | inl msg' => accumulateAll msg' rest
      | inr err => inr err
      end
  end.

(** The provider's protocol, as far as text goes: a [message_start] opens
    the stream and carries no content, a text block starts empty, and a
    text delta extends a text block. [msg] is the message accumulated
    before [events]. *)
Definition textStep (msg : Message) (e : MessageStreamEventUnion) : bool :=
  if decide (evType e = "message_start") then
    bool_decide (MsgContent (evMessage e) = [] ∧ MsgContent msg = [])
  else if decide (evType e = "content_block_start") then
    bool_decide (cbType (evContentBlock e) = "text" →
                 cbText (evContentBlock e) = EmptyString)
  else if decide (evType e = "content_block_delta") then
    bool_decide (edType (evDelta e) = "text_delta" →
                 cbType <$> last (MsgContent msg) = Some "text")
  else true.

Fixpoint textProtocol (msg : Message) (events : list MessageStreamEventUnion)
  : bool :=
  match events with
  | [] => true
  | e :: rest =>
      textStep msg e
      && match Accumulate msg e with
         | inl msg' => textProtocol msg' rest
         | inr _ => true
         end
  end.

(** The pairs yielded for a list of text deltas. *)
Definition partials (deltas : list string) : list Yielded :=
  (λ delta, (Some (partialResponse delta), None)) <$> deltas.

(** ** Example data

    The conversations of the repository's tests, used below to run the
    definitions. *)

Module Example.

Definition dquote : string := String "034"%char EmptyString.

Definition quoted (s : string) : string := dquote +:+ s +:+ dquote.

(** The arguments of the tool call of the tests, and their JSON text. *)
Definition spotArgs : gmap string any := {[ "name" := AString "all" ]}.

Definition spotArgsText : string :=
  "{" +:+ quoted "name" +:+ ":" +:+ quoted "all" +:+ "}".

(** [encoding/json] on the values and texts of the examples: marshalling
    prints nil, booleans, strings that need no escape, slices and maps
    (the examples contain no number, which is printed as 0 here),
    unmarshalling knows the texts the examples use and rejects the
    others. *)
Fixpoint marshal (v : any) : string :=
  match v with
  | ANil => "null"
  | ABool true => "true"
  | ABool false => "false"
  | AFloat64 _ => "0"
  | AString s => quoted s
  | AStrings l => "[" +:+ String.concat "," (quoted <$> l) +:+ "]"
  | ASlice l => "[" +:+ String.concat "," (marshal <$> l) +:+ "]"
  | AMap m =>
      "{" +:+ String.concat ","
                ((λ kv, quoted kv.1 +:+ ":" +:+ kv.2)
                   <$> map_to_list (marshal <$> m)) +:+ "}"
  end.

Definition unmarshalMap (s : string) : option (gmap string any) :=
  if decide (s = spotArgsText) then Some spotArgs
  else if decide (s = "{}") then Some ∅
  else if decide (s = "null") then Some ∅
  else None.

Definition codec : JSONCodec :=
  {| jsonMarshal := marshal; jsonUnmarshalMap := unmarshalMap |}.

Definition textPart (text : string) : option Part :=
  Some {| Text := text; PartFunctionCall := None;
          PartFunctionResponse := None |}.

Definition spotCall : FunctionCall :=
  {| fcID := "toolu_01A"; fcName := "get_spots"; fcArgs := spotArgs |}.

Definition callPart : Part :=
  {| Text := EmptyString; PartFunctionCall := Some spotCall;
     PartFunctionResponse := None |}.

Definition userContent : Content :=
  {| Role := "user"; Parts := [textPart "Show spots"] |}.

Definition modelContent : Content :=
  {| Role := "model"; Parts := [Some callPart] |}.

(** The system instruction of the tests. *)
Definition instruction : Content :=
  {| Role := EmptyString;
     Parts := [textPart "You are a surf analyst."; textPart EmptyString;
               textPart "Rate conditions."] |}.

Definition spotSchema : Schema :=
  {| schemaType := "OBJECT"; schemaDescription := EmptyString;
     schemaProperties :=
       {[ "name" := Some {| schemaType := "STRING";
                            schemaDescription := "Spot name or 'all'";
                            schemaProperties := ∅; schemaRequired := [];
                            schemaEnum := []; schemaItems := None |} ]};
     schemaRequired := ["name"]; schemaEnum := []; schemaItems := None |}.

Definition spotTool : Tool :=
  {| FunctionDeclarations :=
       [Some {| fdName := "get_spots_of_interest";
                fdDescription := "Returns spots of interest.";
                fdParameters := Some spotSchema;
                fdParametersJsonSchema := ANil |}] |}.

Definition config : GenerateContentConfig :=
  {| SystemInstruction := Some instruction; MaxOutputTokens := 1024;
     Temperature := None; TopP := None; StopSequences := [];
     Tools := [Some spotTool] |}.

Definition request : LLMRequest :=
  {| Contents := [Some userContent; Some modelContent];
     Config := Some config |}.

(** The schema of the schema test: an object with a string and an array
    of strings. *)
Definition leafSchema (ty : string) (items : option Schema) : Schema :=
  {| schemaType := ty; schemaDescription := EmptyString;
     schemaProperties := ∅; schemaRequired := []; schemaEnum := [];
     schemaItems := items |}.

Definition typesSchema : Schema :=
  {| schemaType := "OBJECT"; schemaDescription := EmptyString;
     schemaProperties :=
       {[ "name" := Some (leafSchema "STRING" None);
          "tags" := Some (leafSchema "ARRAY"
                            (Some (leafSchema "STRING" None))) ]};
     schemaRequired := ["name"]; schemaEnum := []; schemaItems := None |}.

(** The content that returns the result of the tool call. *)
Definition resultContent : Content :=
  {| Role := "user";
     Parts := [Some {| Text := EmptyString; PartFunctionCall := None;
                       PartFunctionResponse :=
                         Some {| frID := "toolu_01A"; frName := "get_spots";
                                 frResponse :=
                                   {[ "result" := AString "Ocean Beach" ]} |}
                    |}] |}.

(** The blocks of a reply, and the reply of the text test. *)
Definition toolUseBlock : ContentBlockUnion :=
  {| cbType := "tool_use"; cbText := EmptyString; cbID := "toolu_01A";
     cbName := "get_spots"; cbInput := spotArgsText |}.

Definition textBlock (text : string) : ContentBlockUnion :=
  {| cbType := "text"; cbText := text; cbID := EmptyString;
     cbName := EmptyString; cbInput := EmptyString |}.

Definition reply : Message :=
  {| MsgContent := [textBlock "Paris"];
     StopReason := StopReasonEndTurn;
     MsgUsage := {| InputTokens := 14; OutputTokens := 4 |} |}.

(** The events of a stream, by type. *)
Definition noDelta : EventDelta :=
  {| edType := EmptyString; edText := EmptyString;
     edPartialJSON := EmptyString; edStopReason := EmptyString |}.

Definition event (ty : string) : MessageStreamEventUnion :=
  {| evType := ty; evMessage := zeroMessage;
     evContentBlock := textBlock EmptyString; evDelta := noDelta;
     evUsageOutputTokens := 0 |}.

Definition blockStart (block : ContentBlockUnion) : MessageStreamEventUnion :=
  {| evType := "content_block_start"; evMessage := zeroMessage;
     evContentBlock := block; evDelta := noDelta; evUsageOutputTokens := 0 |}.

Definition textDeltaEvent (text : string) : MessageStreamEventUnion :=
  {| evType := "content_block_delta"; evMessage := zeroMessage;
     evContentBlock := textBlock EmptyString;
     evDelta := {| edType := "text_delta"; edText := text;
                   edPartialJSON := EmptyString;
                   edStopReason := EmptyString |};
     evUsageOutputTokens := 0 |}.

Definition messageDelta (stop : string) (out : Z) : MessageStreamEventUnion :=
  {| evType := "message_delta"; evMessage := zeroMessage;
     evContentBlock := textBlock EmptyString;
     evDelta := {| edType := EmptyString; edText := EmptyString;
                   edPartialJSON := EmptyString; edStopReason := stop |};
     evUsageOutputTokens := out |}.

(** The stream of the streaming test: "Hello", then " world". *)
Definition helloEvents : list MessageStreamEventUnion :=
  [ event "message_start";
    blockStart (textBlock EmptyString);
    textDeltaEvent "Hello";
    textDeltaEvent " world";
    event "content_block_stop";
    messageDelta StopReasonEndTurn 2;
    event "message_stop" ].

Definition helloStream : Stream :=
  {| stEvents := helloEvents; stErr := None |}.

(** A stream whose text block does not start empty. *)
Definition prefilledStream : Stream :=
  {| stEvents := [blockStart (textBlock "Hi")]; stErr := None |}.

(** A provider that answers every blocking call with [reply] and every
    streaming call with [helloStream]; one whose blocking call fails. *)
Definition provider : Client :=
  {| MessagesNew := λ _, inl reply; MessagesNewStreaming := λ _, helloStream |}.

Definition overloaded : error := ErrorString "529 overloaded".

Definition failingProvider : Client :=
  {| MessagesNew := λ _, inr overloaded;
     MessagesNewStreaming := λ _, helloStream |}.

Definition prefilledProvider : Client :=
  {| MessagesNew := λ _, inl reply;
     MessagesNewStreaming := λ _, prefilledStream |}.

Definition claude (c : Client) : claudeModel :=
  {| name := "claude-sonnet-4-5-20250929"; client := c |}.

(** A consumer that breaks out of the loop at the first response. *)
Definition stopAtFirst : Consumer := λ _, false.

(** The call parameters, when only [MaxTokens] and the model matter. *)
Definition someParams : MessageNewParams :=
  {| Model := "claude-sonnet-4-5-20250929"; MaxTokens := defaultMaxTokens;
     Messages := []; System := []; ParamTemperature := None;
     ParamTopP := None; ParamStopSequences := []; ParamTools := [];
     ToolChoice := None |}.

End Example.

(** ** Notions used in the further properties *)

(** The pointers [buildParams] dereferences: every content and its parts,
    and under a non-nil config the parts of the system instruction, the
    tools and their function declarations. *)
Definition noNilRequest (req : LLMRequest) : bool :=
  noNilContents (Contents req)
  && match Config req with
     | Some cfg =>
         match SystemInstruction cfg with
         | Some c => noNilParts (Parts c)
         | None => true
         end
         && noNilTools (Tools cfg)
     | None => true
     end.

(** The function declarations of a list of tools, in order (nil tools and
    nil declarations left out). *)
Definition declarations (tools : list (option Tool))
  : list FunctionDeclaration :=
  t ← omap id tools; omap id (FunctionDeclarations t).

(** Every declaration has a structured [Parameters] schema or no
    [ParametersJsonSchema] at all. *)
Definition noJsonSchemaOnly (tools : list (option Tool)) : bool :=
  forallb (λ fd, isSome (fdParameters fd)
                 || match fdParametersJsonSchema fd with
                    | ANil => true
                    | _ => false
                    end) (declarations tools).

(** The tools that hold one declaration. *)
Definition oneDeclaration (fd : FunctionDeclaration) : list (option Tool) :=
  [Some {| FunctionDeclarations := [Some fd] |}].

(** What the request mapper lets through: no empty text block, and tool
    results that are never marked as errors. *)
Definition wellFormedBlock (b : ContentBlockParamUnion) : Prop :=
  match b with
  | NewTextBlock text => text ≠ EmptyString
  | NewToolUseBlock _ _ _ => True
  | NewToolResultBlock _ _ isError => isError = false
  end.

(** The reply blocks the response mapper keeps. *)
Definition mapped (block : ContentBlockUnion) : Prop :=
  cbType block = "text" ∨ cbType block = "tool_use".

#[global] Instance mapped_dec block : Decision (mapped block).
Proof. unfold mapped. apply _. Defined.

(** The parts the response mapper builds for one reply block: a text
    part for a text block, a function-call part for a tool_use block,
    nothing for a block of another type. *)
Definition mappedParts `{JSONCodec} (block : ContentBlockUnion)
  : list (option Part) :=
  if decide (cbType block = "text") then
    [Some {| Text := cbText block; PartFunctionCall := None;
             PartFunctionResponse := None |}]
  else if decide (cbType block = "tool_use") then [Some (toolUsePart block)]
  else [].

(** The request blocks that a reply block comes back as, when the mapped
    reply is sent again as history. *)
Definition replayBlock `{JSONCodec} (block : ContentBlockUnion)
  : list ContentBlockParamUnion :=
  if decide (cbType block = "text") then
    if decide (cbText block = EmptyString) then []
    else [NewTextBlock (cbText block)]
  else if decide (cbType block = "tool_use") then
    [NewToolUseBlock (cbID block)
       (AMap (default ∅ (jsonUnmarshalMap (cbInput block)))) (cbName block)]
  else [].

(** [buildParams] of [convert.go]: the free function takes the model name
    and calls the [extractTools] of [convert.go]; its debug loop, its
    [contentsToMessages] and its [systemFromContent] are those of the
    method version. *)
Section ConvertBuildParams.

Context `{JSONCodec}.

Definition convert_buildParams (modelName : string) (req : LLMRequest)
  : option MessageNewParams :=
  _ ← logContents (Contents req);
  msgs ← contentsToMessages (Contents req);
  let params :=
    {| Model := modelName; MaxTokens := defaultMaxTokens; Messages := msgs;
       System := []; ParamTemperature := None; ParamTopP := None;
       ParamStopSequences := []; ParamTools := []; ToolChoice := None |} in
  match Config req with
  | None => Some params
  | Some cfg =>
      params ←
        match SystemInstruction cfg with
        | Some c =>
            sys ← systemFromContent c;
            Some (if decide (0 < length sys)%nat then setSystem params sys
                  else params)
        | None => Some params
        end;
      let params :=
        if decide (0 < MaxOutputTokens cfg)
        then setMaxTokens params (GoInt.int64 (MaxOutputTokens cfg))
        else params in
      let params :=
        match Temperature cfg with
        | Some t => setTemperature params (GoFloat.float64_of_float32 t)
        | None => params
        end in
      let params :=
        match TopP cfg with
        | Some t => setTopP params (GoFloat.float64_of_float32 t)
        | None => params
        end in
      let params :=
        if decide (0 < length (StopSequences cfg))%nat
        then setStopSequences params (StopSequences cfg)
        else params in
      tools ← convert.extractTools (Tools cfg);
      Some (if decide (0 < length tools)%nat then setTools params tools
            else params)
  end.

End ConvertBuildParams.

(** How a streaming iteration can end: with nothing more (the consumer
    stopped), with the last response, or with a wrapped error. *)
Inductive StreamEnd : list Yielded → Prop :=
| EndStopped : StreamEnd []
| EndFinal resp :
    TurnComplete resp = true → Partial resp = false →
    StreamEnd [(Some resp, None)]
| EndError prefix err :
    prefix = "claude: accumulate: " ∨ prefix = "claude: stream: " →
    StreamEnd [(None, Some (Errorf_w prefix err))].

(** *** More example data *)

Module Example2.

(** A JSON schema given as raw JSON, and its text. *)
Definition rawSchema : gmap string any :=
  {[ "type" := AString "object";
     "properties" := AMap {[ "name" := AMap {[ "type" := AString "string" ]} ]};
     "required" := ASlice [AString "name"] ]}.

Definition rawSchemaText : string := "raw-schema".

(** [encoding/json] on the raw schema: its text stands for the schema. *)
Definition codec : JSONCodec :=
  {| jsonMarshal := λ _, rawSchemaText;
     jsonUnmarshalMap :=
       λ s, if decide (s = rawSchemaText) then Some rawSchema else None |}.

Definition rawDeclaration : FunctionDeclaration :=
  {| fdName := "get_spots"; fdDescription := "Returns spots.";
     fdParameters := None; fdParametersJsonSchema := AMap rawSchema |}.

(** A stream that sends a text delta before any block, and one that
    breaks after its first delta. *)
Definition orphanDelta : Stream :=
  {| stEvents := [Example.textDeltaEvent "Hello"]; stErr := None |}.

Definition connectionReset : error := ErrorString "connection reset".

Definition brokenStream : Stream :=
  {| stEvents := [Example.blockStart (Example.textBlock EmptyString);
                  Example.textDeltaEvent "Hello"];
     stErr := Some connectionReset |}.

Definition streaming (st : Stream) : Client :=
  {| MessagesNew := λ _, inl Example.reply;
     MessagesNewStreaming := λ _, st |}.

End Example2.

(** *** A call whose arguments JSON does not give back *)

Module Example3.


Definition tagsText : string :=
  "{" +:+ Example.quoted "tags" +:+ ":[" +:+ Example.quoted "surf" +:+ "]}".

Definition tagsDecoded : gmap string any :=
  {[ "tags" := ASlice [AString "surf"] ]}.

Definition codec : JSONCodec :=
  {| jsonMarshal := Example.marshal;
     jsonUnmarshalMap :=
       λ s, if decide (s = tagsText) then Some tagsDecoded else None |}.


End Example3.

(** * Properties *)

(** ** Integer conversions *)

Section GoIntFacts.

Import GoInt.

Lemma int32_range z : in_int32 (int32 z).
Proof.
  unfold in_int32, int32.
  pose proof (Z.mod_pos_bound (z + 2 ^ 31) (2 ^ 32) ltac:(lia)). lia.
Qed.

Lemma int64_range z : in_int64 (int64 z).
Proof.
  unfold in_int64, int64.
  pose proof (Z.mod_pos_bound (z + 2 ^ 63) (2 ^ 64) ltac:(lia)). lia.
Qed.

Lemma int32_congr z : int32 z mod 2 ^ 32 = z mod 2 ^ 32.
Proof.
  unfold int32.
  rewrite (Z.mod_eq (z + 2 ^ 31) (2 ^ 32)) by lia.
  replace (z + 2 ^ 31 - 2 ^ 32 * ((z + 2 ^ 31) / 2 ^ 32) - 2 ^ 31)
    with (z + (- ((z + 2 ^ 31) / 2 ^ 32)) * 2 ^ 32) by lia.
  apply Z_mod_plus_full.
Qed.

Lemma int64_congr32 z : int64 z mod 2 ^ 32 = z mod 2 ^ 32.
Proof.
  unfold int64.
  rewrite (Z.mod_eq (z + 2 ^ 63) (2 ^ 64)) by lia.
  replace (z + 2 ^ 63 - 2 ^ 64 * ((z + 2 ^ 63) / 2 ^ 64) - 2 ^ 63)
    with (z + (- (2 ^ 32 * ((z + 2 ^ 63) / 2 ^ 64))) * 2 ^ 32) by lia.
  apply Z_mod_plus_full.
Qed.

Lemma int32_id z : in_int32 z → int32 z = z.
Proof.
  unfold in_int32, int32. intros Hz.
  rewrite Z.mod_small; lia.
Qed.

Lemma int64_id z : in_int64 z → int64 z = z.
Proof.
  unfold in_int64, int64. intros Hz.
  rewrite Z.mod_small; lia.
Qed.

Lemma int64_of_int32 z : in_int32 z → int64 z = z.
Proof. unfold in_int32. intros Hz. apply int64_id. unfold in_int64. lia. Qed.

End GoIntFacts.

(** ** Finish reason (C1) *)

(** The preimage of each code under [stopToFinish]. *)
Lemma stopToFinish_cases (reason : string) :
  (reason = StopReasonEndTurn ∧ stopToFinish reason = FinishReasonStop) ∨
  (reason = StopReasonMaxTokens ∧ stopToFinish reason = FinishReasonMaxTokens) ∨
  (reason = StopReasonToolUse ∧ stopToFinish reason = FinishReasonStop) ∨
  (reason ≠ StopReasonEndTurn ∧ reason ≠ StopReasonMaxTokens ∧
   reason ≠ StopReasonToolUse ∧ stopToFinish reason = FinishReasonOther).
Proof.
  unfold stopToFinish.
  repeat case_decide; subst; auto 10.
Qed.

(** C1, as the code has it: [stopToFinish] gives every stop reason one of
    three pairwise distinct codes. A natural stop ([end_turn]) and a tool
    invocation ([tool_use]) both get [STOP] and are the only reasons that
    do, the length limit ([max_tokens]) is the only reason that gets
    [MAX_TOKENS], and every other reason gets [OTHER]. *)
Theorem stopToFinish_three_codes (reason : string) :
  (stopToFinish reason = FinishReasonStop ↔
     reason = StopReasonEndTurn ∨ reason = StopReasonToolUse) ∧
  (stopToFinish reason = FinishReasonMaxTokens ↔
     reason = StopReasonMaxTokens) ∧
  (stopToFinish reason = FinishReasonOther ↔
     reason ≠ StopReasonEndTurn ∧ reason ≠ StopReasonMaxTokens ∧
     reason ≠ StopReasonToolUse) ∧
  FinishReasonStop ≠ FinishReasonMaxTokens ∧
  FinishReasonStop ≠ FinishReasonOther ∧
  FinishReasonMaxTokens ≠ FinishReasonOther.
Proof.
  assert (Hd1 : FinishReasonStop ≠ FinishReasonMaxTokens) by discriminate.
  assert (Hd2 : FinishReasonStop ≠ FinishReasonOther) by discriminate.
  assert (Hd3 : FinishReasonMaxTokens ≠ FinishReasonOther) by discriminate.
  assert (He1 : StopReasonEndTurn ≠ StopReasonMaxTokens) by discriminate.
  assert (He2 : StopReasonToolUse ≠ StopReasonMaxTokens) by discriminate.
  destruct (stopToFinish_cases reason)
    as [[-> Hr]|[[-> Hr]|[[-> Hr]|(Hn1 & Hn2 & Hn3 & Hr)]]];
    rewrite Hr; repeat split; try done; intros; try congruence;
    intuition congruence.
Qed.

(** C1 as the specification words it fails: the code for a tool invocation
    is the code for a natural stop. *)
Lemma stopToFinish_tool_use_not_distinct :
  ¬ (stopToFinish StopReasonToolUse ≠ stopToFinish StopReasonEndTurn).
Proof. intros Hne. apply Hne. reflexivity. Qed.

(** ** Token usage (C5) *)

(** C5: the three counters of the usage metadata are the [int32]
    conversions of the input tokens, of the output tokens and of their
    [int64] sum: each lies in the [int32] range and is congruent modulo
    2^32 to the input tokens, to the output tokens and to their sum. *)
Theorem usageToMetadata_counts (u : Usage) :
  let md := usageToMetadata u in
  (GoInt.in_int32 (PromptTokenCount md) ∧
   PromptTokenCount md mod 2 ^ 32 = InputTokens u mod 2 ^ 32) ∧
  (GoInt.in_int32 (CandidatesTokenCount md) ∧
   CandidatesTokenCount md mod 2 ^ 32 = OutputTokens u mod 2 ^ 32) ∧
  (GoInt.in_int32 (TotalTokenCount md) ∧
   TotalTokenCount md mod 2 ^ 32 =
     (InputTokens u + OutputTokens u) mod 2 ^ 32).
Proof.
  simpl. repeat split; try apply int32_range; try apply int32_congr.
  unfold GoInt.add64. rewrite int32_congr. apply int64_congr32.
Qed.

(** Within the [int32] range nothing is lost. *)
Lemma usageToMetadata_exact (u : Usage) :
  0 <= InputTokens u → 0 <= OutputTokens u →
  InputTokens u + OutputTokens u < 2 ^ 31 →
  usageToMetadata u =
    {| PromptTokenCount := InputTokens u;
       CandidatesTokenCount := OutputTokens u;
       TotalTokenCount := InputTokens u + OutputTokens u |}.
Proof.
  intros Hi Ho Hs. unfold usageToMetadata, GoInt.add64.
  rewrite (int64_id (InputTokens u + OutputTokens u))
    by (unfold GoInt.in_int64; lia).
  rewrite !int32_id by (unfold GoInt.in_int32; lia).
  reflexivity.
Qed.

(** ** The request mapper *)

Section RequestMapper.

Context `{JSONCodec}.

(** What the switch of [partsToBlocks] appends for one part. *)
Lemma partsToBlocks_loop_step (p : Part) rest blocks :
  partsToBlocks_loop (Some p :: rest) blocks =
  partsToBlocks_loop rest
    (blocks ++
       (if decide (Text p ≠ EmptyString) then [NewTextBlock (Text p)]
        else match PartFunctionCall p, PartFunctionResponse p with
             | Some fc, _ =>
                 [NewToolUseBlock (fcID fc) (AMap (fcArgs fc)) (fcName fc)]
             | None, Some fr =>
                 [NewToolResultBlock (frID fr)
                    (jsonMarshal (AMap (frResponse fr))) false]
             | None, None => []
             end)).
Proof.
  simpl. f_equal. case_decide; [done|].
  destruct (PartFunctionCall p); [done|].
  destruct (PartFunctionResponse p); [done|]. by rewrite app_nil_r.
Qed.

(** The loops only ever append to their accumulator. *)
Lemma partsToBlocks_loop_acc parts blocks :
  partsToBlocks_loop parts blocks = (blocks ++.) <$> partsToBlocks parts.
Proof.
  unfold partsToBlocks. revert blocks.
  induction parts as [|[p|] rest IH]; intros blocks.
  - simpl. by rewrite app_nil_r.
  - rewrite !partsToBlocks_loop_step.
    rewrite (IH (blocks ++ _)), (IH ([] ++ _)).
    destruct (partsToBlocks_loop rest []) as [bs|]; simpl; [|done].
    by rewrite app_assoc.
  - done.
Qed.

Lemma partsToBlocks_nil_part parts :
  noNilParts parts = false → partsToBlocks parts = None.
Proof.
  unfold partsToBlocks. generalize (@nil ContentBlockParamUnion).
  induction parts as [|[p|] rest IH]; intros blocks Hnil; simpl in *.
  - done.
  - apply IH, Hnil.
  - done.
Qed.

Lemma partsToBlocks_total parts :
  noNilParts parts = true → is_Some (partsToBlocks parts).
Proof.
  unfold partsToBlocks. generalize (@nil ContentBlockParamUnion).
  induction parts as [|[p|] rest IH]; intros blocks Hnn; simpl in *.
  - by eexists.
  - apply IH, Hnn.
  - done.
Qed.

(** Parts that are all empty give no block. *)
Lemma partsToBlocks_empty_parts parts :
  forallb emptyPart parts = true → partsToBlocks parts = Some [].
Proof.
  unfold partsToBlocks.
  induction parts as [|[p|] rest IH]; intros Hall; simpl in *.
  - done.
  - apply andb_prop in Hall as [Hp Hrest].
    apply andb_prop in Hp as [Hp Hfr]. apply andb_prop in Hp as [Ht Hfc].
    apply bool_decide_eq_true in Ht.
    destruct (PartFunctionCall p); [done|].
    destruct (PartFunctionResponse p); [done|].
    case_decide; [done|]. by apply IH.
  - done.
Qed.

Lemma contentsToMessages_loop_acc contents msgs :
  contentsToMessages_loop contents msgs =
  (msgs ++.) <$> contentsToMessages contents.
Proof.
  unfold contentsToMessages. revert msgs.
  induction contents as [|[c|] rest IH]; intros msgs; simpl.
  - by rewrite app_nil_r.
  - destruct (partsToBlocks (Parts c)) as [blocks|]; simpl; [|done].
    repeat case_decide.
    + apply IH.
    + rewrite (IH (msgs ++ _)), (IH [_]).
      destruct (contentsToMessages_loop rest []); simpl; [|done].
      by rewrite <- app_assoc.
    + rewrite (IH (msgs ++ _)), (IH [_]).
      destruct (contentsToMessages_loop rest []); simpl; [|done].
      by rewrite <- app_assoc.
  - apply IH.
Qed.

Lemma contentsToMessages_nil_content rest :
  contentsToMessages (None :: rest) = contentsToMessages rest.
Proof. done. Qed.

Lemma contentsToMessages_no_block c rest :
  partsToBlocks (Parts c) = Some [] →
  contentsToMessages (Some c :: rest) = contentsToMessages rest.
Proof. unfold contentsToMessages. simpl. by intros ->. Qed.

Lemma contentsToMessages_block c rest blocks :
  partsToBlocks (Parts c) = Some blocks → blocks ≠ [] →
  contentsToMessages (Some c :: rest) =
  ({| mpRole := roleOf c; mpContent := blocks |} ::.)
    <$> contentsToMessages rest.
Proof.
  intros Hb Hne. unfold contentsToMessages, roleOf. simpl. rewrite Hb. simpl.
  case_decide as Hlen; [by destruct blocks|].
  case_decide; rewrite contentsToMessages_loop_acc; done.
Qed.

Lemma contentsToMessages_panic c rest :
  partsToBlocks (Parts c) = None →
  contentsToMessages (Some c :: rest) = None.
Proof. unfold contentsToMessages. simpl. by intros ->. Qed.

Lemma contentsToMessages_app l1 l2 :
  contentsToMessages (l1 ++ l2) =
  msgs1 ← contentsToMessages l1;
  msgs2 ← contentsToMessages l2;
  Some (msgs1 ++ msgs2).
Proof.
  induction l1 as [|[c|] l1 IH]; simpl.
  - change (contentsToMessages []) with (Some (@nil MessageParam)). simpl.
    by destruct (contentsToMessages l2).
  - destruct (partsToBlocks (Parts c)) as [[|b blocks]|] eqn:Hb.
    + rewrite !contentsToMessages_no_block by done. apply IH.
    + rewrite !(contentsToMessages_block _ _ _ Hb) by done.
      rewrite IH. destruct (contentsToMessages l1); simpl; [|done].
      by destruct (contentsToMessages l2).
    + by rewrite !contentsToMessages_panic.
  - rewrite !contentsToMessages_nil_content. apply IH.
Qed.

Lemma contentsToMessages_total contents :
  noNilContents contents = true → is_Some (contentsToMessages contents).
Proof.
  induction contents as [|[c|] rest IH]; simpl; intros Hnn.
  - by eexists.
  - apply andb_prop in Hnn as [Hc Hrest].
    destruct (partsToBlocks_total _ Hc) as [[|b blocks] Hb].
    + rewrite contentsToMessages_no_block by done. by apply IH.
    + rewrite (contentsToMessages_block _ _ _ Hb) by done.
      destruct (IH Hrest) as [msgs ->]. by eexists.
  - done.
Qed.

Lemma contentsToMessages_nonempty contents msgs :
  contentsToMessages contents = Some msgs →
  Forall (λ m, mpContent m ≠ []) msgs.
Proof.
  revert msgs. induction contents as [|[c|] rest IH]; intros msgs.
  - intros [= <-]. constructor.
  - destruct (partsToBlocks (Parts c)) as [[|b blocks]|] eqn:Hb.
    + rewrite contentsToMessages_no_block by done. apply IH.
    + rewrite (contentsToMessages_block _ _ _ Hb) by done.
      destruct (contentsToMessages rest) as [msgs'|]; simpl; [|done].
      intros [= <-]. constructor; [done|]. by apply IH.
    + by rewrite contentsToMessages_panic.
  - rewrite contentsToMessages_nil_content. apply IH.
Qed.

End RequestMapper.

(** ** Building the call parameters *)

Section BuildParams.

Context `{JSONCodec}.

Lemma systemFromContent_loop_texts ps parts :
  noNilParts ps = true →
  systemFromContent_loop ps parts =
  Some (parts ++ filter (λ s, s ≠ EmptyString) (omap (fmap Text) ps)).
Proof.
  revert parts. induction ps as [|[p|] rest IH]; intros parts Hnn; simpl in *.
  - by rewrite app_nil_r.
  - rewrite IH by done. f_equal.
    rewrite filter_cons. repeat case_decide; try done.
    by rewrite <- app_assoc.
  - done.
Qed.

Lemma systemFromContent_texts c :
  noNilParts (Parts c) = true →
  systemFromContent c =
  Some (match nonEmptyTexts c with
        | [] => []
        | texts => [ {| tbType := "text";
                        tbText := String.concat Strings.newline texts |} ]
        end).
Proof.
  intros Hnn. unfold systemFromContent, nonEmptyTexts.
  rewrite systemFromContent_loop_texts by done. simpl.
  destruct (filter _ _); done.
Qed.

Lemma logParts_total parts :
  noNilParts parts = true → logParts parts = Some ().
Proof. induction parts as [|[p|] rest IH]; simpl; auto; done. Qed.

Lemma logContents_total contents :
  noNilContents contents = true → logContents contents = Some ().
Proof.
  induction contents as [|[c|] rest IH]; simpl; [done| |done].
  intros [Hc Hrest]%andb_prop. rewrite logParts_total by done. simpl. auto.
Qed.

(** A nil content stops the debug loop of [buildParams]. *)
Lemma logContents_nil_content contents :
  None ∈ contents → logContents contents = None.
Proof.
  induction contents as [|[c|] rest IH]; simpl.
  - by intros ?%elem_of_nil.
  - intros [?|Hin]%elem_of_cons; [done|].
    destruct (logParts (Parts c)); simpl; auto.
  - done.
Qed.

Lemma extractTools_decls_total fds result :
  forallb isSome fds = true → is_Some (extractTools_decls fds result).
Proof.
  revert result. induction fds as [|[fd|] rest IH]; intros result; simpl.
  - by eexists.
  - intros Hnn. apply IH, Hnn.
  - done.
Qed.

Lemma extractTools_loop_total tools result :
  noNilTools tools = true → is_Some (extractTools_loop tools result).
Proof.
  revert result. induction tools as [|[t|] rest IH]; intros result; simpl.
  - by eexists.
  - intros [Ht Hrest]%andb_prop.
    destruct (extractTools_decls_total (FunctionDeclarations t) result Ht)
      as [result' ->]. simpl. by apply IH.
  - done.
Qed.

(** The parameters [buildParams] returns, field by field. *)
Lemma buildParams_fields m req params :
  buildParams m req = Some params →
  ∃ msgs,
    contentsToMessages (Contents req) = Some msgs ∧
    match Config req with
    | None =>
        params =
        {| Model := name m; MaxTokens := defaultMaxTokens; Messages := msgs;
           System := []; ParamTemperature := None; ParamTopP := None;
           ParamStopSequences := []; ParamTools := []; ToolChoice := None |}
    | Some cfg =>
        ∃ sys tools,
          match SystemInstruction cfg with
          | Some c => systemFromContent c = Some sys
          | None => sys = []
          end ∧
          extractTools (Tools cfg) = Some tools ∧
          params =
          {| Model := name m;
             MaxTokens := if decide (0 < MaxOutputTokens cfg)
                          then GoInt.int64 (MaxOutputTokens cfg)
                          else defaultMaxTokens;
             Messages := msgs;
             System := sys;
             ParamTemperature :=
               GoFloat.float64_of_float32 <$> Temperature cfg;
             ParamTopP := GoFloat.float64_of_float32 <$> TopP cfg;
             ParamStopSequences := StopSequences cfg;
             ParamTools := tools;
             ToolChoice :=
               match tools with
               | [] => None
               | _ => Some {| tcType := "auto";
                              tcDisableParallelToolUse := true |}
               end |}
    end.
Proof.
  unfold buildParams. intros Hb.
  destruct (logContents (Contents req)); simpl in Hb; [|done].
  destruct (contentsToMessages (Contents req)) as [msgs|]; simpl in Hb; [|done].
  exists msgs. split; [done|].
  destruct (Config req) as [cfg|]; [|by injection Hb as <-].
  set (base := mkMessageNewParams _ _ _ _ _ _ _ _ _) in Hb.
  assert (Hsys : ∀ sys,
    (if decide (0 < length sys)%nat then setSystem base sys else base) =
    setSystem base sys).
  { intros [|b sys]; case_decide; simpl in *; done || lia. }
  assert (∃ sys,
    match SystemInstruction cfg with
    | Some c => systemFromContent c = Some sys
    | None => sys = []
    end ∧
    (tools ← extractTools (Tools cfg);
     let p := setSystem base sys in
     let p := if decide (0 < MaxOutputTokens cfg)
              then setMaxTokens p (GoInt.int64 (MaxOutputTokens cfg))
              else p in
     let p := match Temperature cfg with
              | Some t => setTemperature p (GoFloat.float64_of_float32 t)
              | None => p
              end in
     let p := match TopP cfg with
              | Some t => setTopP p (GoFloat.float64_of_float32 t)
              | None => p
              end in
     let p := if decide (0 < length (StopSequences cfg))%nat
              then setStopSequences p (StopSequences cfg)
              else p in
     Some (if decide (0 < length tools)%nat then setTools p tools else p))
    = Some params) as (sys & Hs & Hb').
  { destruct (SystemInstruction cfg) as [c|].
    - destruct (systemFromContent c) as [sys|]; [|done].
      exists sys. split; [done|]. simpl in Hb. by rewrite Hsys in Hb.
    - exists []. split; [done|]. exact Hb. }
  clear Hb.
  destruct (extractTools (Tools cfg)) as [tools|]; simpl in Hb'; [|done].
  exists sys, tools. split; [done|]. split; [done|].
  injection Hb' as <-.
  destruct (Temperature cfg), (TopP cfg), (StopSequences cfg), tools;
    repeat case_decide; simpl in *; try lia; reflexivity.
Qed.

Lemma buildParams_total m req :
  validRequest req = true → is_Some (buildParams m req).
Proof.
  unfold validRequest, buildParams. intros [Hc Hcfg]%andb_prop.
  rewrite logContents_total by done. simpl.
  destruct (contentsToMessages_total _ Hc) as [msgs ->]. simpl.
  destruct (Config req) as [cfg|]; [|by eexists].
  unfold validConfig in Hcfg.
  apply andb_prop in Hcfg as [Hcfg _]. apply andb_prop in Hcfg as [Hsys Htools].
  destruct (extractTools_loop_total (Tools cfg) [] Htools) as [tools Ht].
  unfold extractTools. rewrite Ht.
  destruct (SystemInstruction cfg) as [c|].
  - rewrite systemFromContent_texts by done. simpl. by eexists.
  - simpl. by eexists.
Qed.

(** A request with a nil content makes [buildParams] panic, before
    [contentsToMessages] is reached. *)
Lemma buildParams_panics_on_nil m req :
  None ∈ Contents req → buildParams m req = None.
Proof.
  intros Hin. unfold buildParams. by rewrite logContents_nil_content.
Qed.

End BuildParams.

(** ** Roles (C6) *)

Section Roles.

Context `{JSONCodec}.

(** C6: a non-nil content that yields at least one block becomes one
    provider message, at its place among the messages of the contents
    before and after it: an assistant message when its role is "model" or
    "assistant", a user message for every other role. The messages of
    the call parameters are these messages. *)
Theorem contentsToMessages_role before c after blocks msgsB msgsA :
  partsToBlocks (Parts c) = Some blocks → blocks ≠ [] →
  contentsToMessages before = Some msgsB →
  contentsToMessages after = Some msgsA →
  (Role c = "model" ∨ Role c = "assistant" →
   contentsToMessages (before ++ Some c :: after) =
   Some (msgsB ++ NewAssistantMessage blocks :: msgsA)) ∧
  (Role c ≠ "model" → Role c ≠ "assistant" →
   contentsToMessages (before ++ Some c :: after) =
   Some (msgsB ++ NewUserMessage blocks :: msgsA)) ∧
  (∀ m cfg params,
     buildParams m {| Contents := before ++ Some c :: after;
                      Config := cfg |} = Some params →
     Messages params =
     msgsB ++ {| mpRole := roleOf c; mpContent := blocks |} :: msgsA).
Proof.
  intros Hb Hne HB HA.
  assert (Hall : contentsToMessages (before ++ Some c :: after) =
    Some (msgsB ++ {| mpRole := roleOf c; mpContent := blocks |} :: msgsA)).
  { rewrite contentsToMessages_app, HB. simpl.
    rewrite (contentsToMessages_block _ _ _ Hb Hne), HA. done. }
  split; [|split].
  - intros Hrole. rewrite Hall. unfold roleOf. by rewrite decide_True.
  - intros Hn1 Hn2. rewrite Hall. unfold roleOf.
    rewrite decide_False; [done|]. by intros [?|?].
  - intros m cfg params Hp.
    destruct (buildParams_fields _ _ _ Hp) as (msgs & Hmsgs & Hcfg).
    simpl in Hmsgs, Hcfg. rewrite Hall in Hmsgs. injection Hmsgs as <-.
    destruct cfg as [cfg|].
    + destruct Hcfg as (sys & tools & _ & _ & ->). done.
    + by rewrite Hcfg.
Qed.

End Roles.

Lemma contentsToMessages_role_witness :
  @contentsToMessages Example.codec
    ([Some Example.userContent] ++ Some Example.modelContent :: []) =
  Some ([NewUserMessage [NewTextBlock "Show spots"]] ++
        NewAssistantMessage
          [NewToolUseBlock "toolu_01A" (AMap Example.spotArgs) "get_spots"]
        :: []).
Proof.
  refine (proj1 (@contentsToMessages_role Example.codec
    [Some Example.userContent] Example.modelContent []
    [NewToolUseBlock "toolu_01A" (AMap Example.spotArgs) "get_spots"]
    [NewUserMessage [NewTextBlock "Show spots"]] [] _ _ _ _) _).
  - reflexivity.
  - discriminate.
  - reflexivity.
  - reflexivity.
  - left. reflexivity.
Defined.

(** ** MaxTokens (C7) and the system prompt (C9) *)

Section Params.

Context `{JSONCodec}.

(** C7: on every valid request [buildParams] returns call parameters
    whose [MaxTokens] is the config's [MaxOutputTokens] when the config is
    non-nil and [MaxOutputTokens > 0], and the default 8192 otherwise. *)
Theorem buildParams_MaxTokens m req :
  validRequest req = true →
  ∃ params,
    buildParams m req = Some params ∧
    MaxTokens params =
    match Config req with
    | Some cfg =>
        if decide (0 < MaxOutputTokens cfg) then MaxOutputTokens cfg else 8192
    | None => 8192
    end.
Proof.
  intros Hv. destruct (buildParams_total m req Hv) as [params Hp].
  exists params. split; [done|].
  destruct (buildParams_fields _ _ _ Hp) as (msgs & _ & Hcfg).
  destruct (Config req) as [cfg|] eqn:Hc; [|by rewrite Hcfg].
  destruct Hcfg as (sys & tools & _ & _ & ->). simpl.
  case_decide; [|done].
  apply int64_of_int32.
  unfold validRequest in Hv. rewrite Hc in Hv.
  apply andb_prop in Hv as [_ Hv]. unfold validConfig in Hv.
  apply andb_prop in Hv as [_ Hv]. by apply bool_decide_eq_true in Hv.
Qed.

(** C9: on every valid request whose config has a system instruction,
    the system prompt of the call parameters is one text block holding
    the instruction's non-empty texts, in order, joined by newlines; it is
    left unset (nil) when the instruction has no non-empty text. *)
Theorem buildParams_System m req cfg c :
  validRequest req = true →
  Config req = Some cfg →
  SystemInstruction cfg = Some c →
  ∃ params,
    buildParams m req = Some params ∧
    System params =
    match nonEmptyTexts c with
    | [] => []
    | texts => [ {| tbType := "text";
                    tbText := String.concat Strings.newline texts |} ]
    end.
Proof.
  intros Hv Hc Hs. destruct (buildParams_total m req Hv) as [params Hp].
  exists params. split; [done|].
  destruct (buildParams_fields _ _ _ Hp) as (msgs & _ & Hcfg).
  rewrite Hc in Hcfg. destruct Hcfg as (sys & tools & Hsys & _ & ->). simpl.
  rewrite Hs in Hsys.
  unfold validRequest in Hv. rewrite Hc in Hv.
  apply andb_prop in Hv as [_ Hv]. unfold validConfig in Hv.
  apply andb_prop in Hv as [Hv _]. apply andb_prop in Hv as [Hv _].
  rewrite Hs in Hv. rewrite systemFromContent_texts in Hsys by done.
  by injection Hsys as <-.
Qed.

End Params.

Lemma buildParams_MaxTokens_witness :
  ∃ params,
    @buildParams Example.codec (Example.claude Example.provider)
      Example.request = Some params ∧
    MaxTokens params = 1024.
Proof.
  apply (@buildParams_MaxTokens Example.codec
           (Example.claude Example.provider) Example.request).
  vm_compute. reflexivity.
Defined.

Lemma buildParams_System_witness :
  ∃ params,
    @buildParams Example.codec (Example.claude Example.provider)
      Example.request = Some params ∧
    System params =
    [ {| tbType := "text";
         tbText := "You are a surf analyst." +:+ Strings.newline
                   +:+ "Rate conditions." |} ].
Proof.
  apply (@buildParams_System Example.codec
           (Example.claude Example.provider) Example.request
           Example.config Example.instruction).
  - vm_compute. reflexivity.
  - reflexivity.
  - reflexivity.
Defined.

(** ** No empty message (C10) *)

Section NoEmptyMessage.

Context `{JSONCodec}.

(** What [contentsToMessages] does by itself: every message it builds has
    at least one block, and nil contents and contents whose parts are all
    empty leave no trace in its result. *)
Lemma contentsToMessages_drops before after :
  (∀ msgs, contentsToMessages (before ++ after) = Some msgs →
           Forall (λ m, mpContent m ≠ []) msgs) ∧
  contentsToMessages (before ++ None :: after) =
    contentsToMessages (before ++ after) ∧
  (∀ c, forallb emptyPart (Parts c) = true →
        contentsToMessages (before ++ Some c :: after) =
        contentsToMessages (before ++ after)).
Proof.
  split; [|split].
  - intros msgs. apply contentsToMessages_nonempty.
  - by rewrite !contentsToMessages_app, contentsToMessages_nil_content.
  - intros c Hc. rewrite !contentsToMessages_app.
    by rewrite (contentsToMessages_no_block c after
                  (partsToBlocks_empty_parts _ Hc)).
Qed.

(** Every message of the call parameters has at least one block. *)
Lemma buildParams_nonempty m req params :
  buildParams m req = Some params →
  Forall (λ msg, mpContent msg ≠ []) (Messages params).
Proof.
  intros Hp. destruct (buildParams_fields _ _ _ Hp) as (msgs & Hmsgs & Hcfg).
  apply contentsToMessages_nonempty in Hmsgs.
  destruct (Config req) as [cfg|].
  - destruct Hcfg as (sys & tools & _ & _ & ->). done.
  - by rewrite Hcfg.
Qed.

(** C10 at a request that holds a nil content: [contentsToMessages] drops
    the nil content and keeps the message of the content next to it, but
    [buildParams] never gets there, its debug loop dereferences the nil
    content and panics, and so does [GenerateContent]. *)
Theorem buildParams_nil_content_panics m cfg :
  contentsToMessages [None; Some Example.userContent] =
    Some [NewUserMessage [NewTextBlock "Show spots"]] ∧
  buildParams m {| Contents := [None; Some Example.userContent];
                   Config := cfg |} = None ∧
  (∀ stream yield,
     GenerateContent m {| Contents := [None; Some Example.userContent];
                          Config := cfg |} stream yield = None).
Proof.
  assert (Hp : buildParams m {| Contents := [None; Some Example.userContent];
                                Config := cfg |} = None).
  { apply buildParams_panics_on_nil. simpl. apply elem_of_cons. by left. }
  split; [reflexivity|]. split; [exact Hp|].
  intros stream yield. unfold GenerateContent. by rewrite Hp.
Qed.

End NoEmptyMessage.

(** ** The two versions of [extractTools] (C4) *)

Section ExtractTools.

Context `{JSONCodec}.

Lemma extractTools_decls_structured fds result :
  forallb (λ fd, match fd with
                 | Some fd => isSome (fdParameters fd)
                 | None => true
                 end) fds = true →
  extractTools_decls fds result = convert.extractTools_decls fds result.
Proof.
  revert result. induction fds as [|[fd|] rest IH]; intros result; simpl.
  - done.
  - intros [Hfd Hrest]%andb_prop.
    destruct (fdParameters fd) as [s|]; [|done].
    rewrite <- (IH _ Hrest). do 3 f_equal;
      by destruct (index (schemaToMap_nonnil s) "required").
  - done.
Qed.

Lemma extractTools_loop_structured tools result :
  allStructured tools = true →
  extractTools_loop tools result = convert.extractTools_loop tools result.
Proof.
  revert result. induction tools as [|[t|] rest IH]; intros result; simpl.
  - done.
  - intros [Ht Hrest]%andb_prop.
    rewrite (extractTools_decls_structured _ _ Ht).
    destruct (convert.extractTools_decls _ _); simpl; [|done].
    by apply IH.
  - done.
Qed.

(** C4: on tools whose function declarations all carry a structured
    [Parameters] schema, the method [extractTools] and the free function
    [extractTools] of [convert.go] return the same thing: the same list of
    tool definitions when no tool and no declaration is nil (and both
    panic otherwise). *)
Theorem extractTools_versions_agree tools :
  allStructured tools = true →
  extractTools tools = convert.extractTools tools ∧
  (noNilTools tools = true → is_Some (convert.extractTools tools)).
Proof.
  intros Hs.
  assert (Heq : extractTools tools = convert.extractTools tools)
    by (by apply extractTools_loop_structured).
  split; [done|].
  intros Hnn. rewrite <- Heq. by apply extractTools_loop_total.
Qed.

End ExtractTools.

Lemma extractTools_versions_agree_witness :
  @extractTools Example.codec [Some Example.spotTool] =
    convert.extractTools [Some Example.spotTool] ∧
  is_Some (convert.extractTools [Some Example.spotTool]).
Proof.
  destruct (@extractTools_versions_agree Example.codec
              [Some Example.spotTool]) as [Heq Hsome].
  - reflexivity.
  - split; [exact Heq|]. apply Hsome. reflexivity.
Defined.

(** ** The blocking call (C3) *)

Section Blocking.

Context `{JSONCodec}.

(** C3: on a valid request, non-streaming [GenerateContent] yields
    exactly one pair, whatever the consumer answers: when the provider
    call fails, nil and the provider's error wrapped under the prefix
    "claude: "; when it succeeds, the mapped response and a nil error. *)
Theorem GenerateContent_blocking m req yield :
  validRequest req = true →
  ∃ params,
    buildParams m req = Some params ∧
    (∀ err,
       MessagesNew (client m) params = inr err →
       GenerateContent m req false yield =
         Some [(None, Some (Errorf_w "claude: " err))] ∧
       Error (Errorf_w "claude: " err) = "claude: " +:+ Error err ∧
       Unwrap (Errorf_w "claude: " err) = Some err) ∧
    (∀ msg,
       MessagesNew (client m) params = inl msg →
       GenerateContent m req false yield =
         Some [(Some (messageToLLMResponse msg), None)]).
Proof.
  intros Hv. destruct (buildParams_total m req Hv) as [params Hp].
  exists params. split; [done|].
  unfold GenerateContent. rewrite Hp. simpl.
  split.
  - intros err ->. done.
  - intros msg ->. done.
Qed.

End Blocking.

Lemma GenerateContent_blocking_witness :
  @GenerateContent Example.codec (Example.claude Example.failingProvider)
    Example.request false drain =
  Some [(None, Some (Errorf_w "claude: " Example.overloaded))].
Proof.
  destruct (@GenerateContent_blocking Example.codec
              (Example.claude Example.failingProvider) Example.request drain)
    as (params & Hp & Herr & Hok).
  - vm_compute. reflexivity.
  - apply (Herr Example.overloaded). reflexivity.
Defined.

(** ** Function calls, out and back (C8) *)

Section FunctionCalls.

Context `{JSONCodec}.

Lemma partsToBlocks_cons p rest :
  partsToBlocks (Some p :: rest) =
  bs1 ← partsToBlocks [Some p];
  bs2 ← partsToBlocks rest;
  Some (bs1 ++ bs2).
Proof.
  unfold partsToBlocks. rewrite !partsToBlocks_loop_step. simpl.
  rewrite partsToBlocks_loop_acc. unfold partsToBlocks.
  by destruct (partsToBlocks_loop rest []).
Qed.

Lemma partsToBlocks_app l1 l2 :
  partsToBlocks (l1 ++ l2) =
  bs1 ← partsToBlocks l1;
  bs2 ← partsToBlocks l2;
  Some (bs1 ++ bs2).
Proof.
  induction l1 as [|[p|] l1 IH].
  - change (partsToBlocks []) with (Some (@nil ContentBlockParamUnion)).
    simpl. by destruct (partsToBlocks l2).
  - simpl. rewrite (partsToBlocks_cons p (l1 ++ l2)), IH.
    rewrite (partsToBlocks_cons p l1).
    destruct (partsToBlocks [Some p]) as [bs|]; simpl; [|done].
    destruct (partsToBlocks l1) as [bs1|]; simpl; [|done].
    destruct (partsToBlocks l2) as [bs2|]; simpl; [|done].
    by rewrite app_assoc.
  - done.
Qed.

(** A part without text that holds a function call gives one tool_use
    block with the call's id, arguments and name. *)
Lemma partsToBlocks_function_call p fc :
  Text p = EmptyString → PartFunctionCall p = Some fc →
  partsToBlocks [Some p] =
  Some [NewToolUseBlock (fcID fc) (AMap (fcArgs fc)) (fcName fc)].
Proof.
  intros Ht Hfc. unfold partsToBlocks. simpl.
  rewrite Ht, Hfc. by rewrite decide_False by (intros Hne; by apply Hne).
Qed.

(** The text comes first in the switch: a part with a text gives a text
    block, whatever else it holds. *)
Lemma partsToBlocks_text_first p :
  Text p ≠ EmptyString →
  partsToBlocks [Some p] = Some [NewTextBlock (Text p)].
Proof.
  intros Ht. unfold partsToBlocks. simpl. by rewrite decide_True.
Qed.

Lemma messageToLLMResponse_loop_acc content parts :
  messageToLLMResponse_loop content parts =
  parts ++ messageToLLMResponse_loop content [].
Proof.
  revert parts. induction content as [|block rest IH]; intros parts; simpl.
  - by rewrite app_nil_r.
  - rewrite (IH (if decide _ then _ else _)).
    rewrite (IH (if decide (cbType block = "text") then [_] else _)).
    repeat case_decide; by rewrite <- ?app_assoc.
Qed.

Lemma messageToLLMResponse_loop_app c1 c2 :
  messageToLLMResponse_loop (c1 ++ c2) [] =
  messageToLLMResponse_loop c1 [] ++ messageToLLMResponse_loop c2 [].
Proof.
  induction c1 as [|block c1 IH]; simpl; [done|].
  rewrite messageToLLMResponse_loop_acc, IH.
  rewrite (messageToLLMResponse_loop_acc c1 (if decide _ then _ else _)).
  by rewrite app_assoc.
Qed.



End FunctionCalls.



(** ** Streaming (C2) *)

Section StringFacts.

Lemma append_nil_r (s : string) : s +:+ EmptyString = s.
Proof.
  induction s as [|c s IH]; [done|].
  change (String c (s +:+ EmptyString) = String c s). by rewrite IH.
Qed.

Lemma append_assoc (s1 s2 s3 : string) :
  s1 +:+ (s2 +:+ s3) = (s1 +:+ s2) +:+ s3.
Proof.
  induction s1 as [|c s1 IH]; [done|].
  change (String c (s1 +:+ (s2 +:+ s3)) = String c ((s1 +:+ s2) +:+ s3)).
  by rewrite IH.
Qed.

Lemma joinAll_app (l1 l2 : list string) :
  joinAll (l1 ++ l2) = joinAll l1 +:+ joinAll l2.
Proof.
  induction l1 as [|s l1 IH]; simpl; [done|].
  by rewrite IH, append_assoc.
Qed.

Lemma blocksText_app c1 c2 :
  blocksText (c1 ++ c2) = blocksText c1 +:+ blocksText c2.
Proof. unfold blocksText. by rewrite filter_app, fmap_app, joinAll_app. Qed.

Lemma blocksText_one b :
  blocksText [b] =
  if decide (cbType b = "text") then cbText b else EmptyString.
Proof.
  unfold blocksText. rewrite filter_cons, filter_nil.
  case_decide; simpl; [apply append_nil_r|done].
Qed.

End StringFacts.

Section Accumulator.

Lemma textDeltas_cons e rest :
  textDeltas (e :: rest) = textDeltas [e] ++ textDeltas rest.
Proof.
  unfold textDeltas. simpl. destruct (textDelta e) as [d [|]]; done.
Qed.

Lemma textDeltas_not_delta e :
  evType e ≠ "content_block_delta" → textDeltas [e] = [].
Proof.
  intros Hne. unfold textDeltas, textDelta. simpl. by rewrite decide_True.
Qed.

Lemma textDeltas_one e :
  textDeltas [e] =
  match textDelta e with
  | (delta, true) => [delta]
  | (_, false) => []
  end.
Proof. unfold textDeltas. simpl. by destruct (textDelta e) as [d [|]]. Qed.

Lemma textDeltas_delta e :
  evType e = "content_block_delta" →
  textDeltas [e] =
  if decide (edType (evDelta e) = "text_delta") then [edText (evDelta e)]
  else [].
Proof.
  intros Hty. unfold textDeltas, textDelta. simpl.
  rewrite decide_False by (by intros Hne; apply Hne).
  by case_decide.
Qed.

Lemma applyDelta_type cb delta : cbType (applyDelta cb delta) = cbType cb.
Proof. unfold applyDelta. by repeat case_decide. Qed.

Lemma applyDelta_text cb delta :
  cbText (applyDelta cb delta) =
  if decide (edType delta = "text_delta") then cbText cb +:+ edText delta
  else cbText cb.
Proof. unfold applyDelta. by repeat case_decide. Qed.

Local Arguments textDeltas : simpl never.

Lemma last_removelast {A} (l : list A) x :
  last l = Some x → l = removelast l ++ [x].
Proof.
  intros [l' ->]%last_Some. by rewrite removelast_last.
Qed.

(** On the provider's protocol, one step of the accumulator appends the
    event's text delta, if it has one, to the text of the message. *)
Lemma Accumulate_text msg e msg' :
  textStep msg e = true →
  Accumulate msg e = inl msg' →
  messageText msg' = messageText msg +:+ joinAll (textDeltas [e]).
Proof.
  unfold textStep, Accumulate, messageText.
  destruct (decide (evType e = "message_start")) as [Hty|_].
  { intros [Hc1 Hc2]%bool_decide_eq_true [= <-].
    rewrite textDeltas_not_delta by (rewrite Hty; discriminate).
    by rewrite Hc1, Hc2. }
  destruct (decide (evType e = "message_delta")) as [Hty|_].
  { intros _ [= <-]. simpl.
    rewrite textDeltas_not_delta by (rewrite Hty; discriminate).
    by rewrite append_nil_r. }
  destruct (decide (evType e = "content_block_start")) as [Hty|_].
  { intros Hs%bool_decide_eq_true [= <-]. simpl.
    rewrite textDeltas_not_delta by (rewrite Hty; discriminate).
    rewrite blocksText_app, blocksText_one.
    case_decide; [by rewrite Hs|done]. }
  destruct (decide (evType e = "content_block_delta")) as [Hty|Hty].
  { intros Hs%bool_decide_eq_true.
    destruct (last (MsgContent msg)) as [cb|] eqn:Hlast; [|done].
    intros [= <-]. simpl.
    rewrite (last_removelast _ _ Hlast) at 2.
    rewrite !blocksText_app, !blocksText_one.
    rewrite applyDelta_type, applyDelta_text, (textDeltas_delta _ Hty).
    destruct (decide (edType (evDelta e) = "text_delta")) as [Hd|Hd].
    - specialize (Hs Hd). injection Hs as Hs.
      rewrite !(decide_True (P := cbType cb = "text")) by done. simpl.
      by rewrite append_nil_r, append_assoc.
    - simpl. by rewrite append_nil_r. }
  rewrite textDeltas_not_delta by done.
  intros _. destruct (decide (evType e = "content_block_stop")).
  - destruct (last (MsgContent msg)); [|done].
    intros [= <-]. by rewrite append_nil_r.
  - intros [= <-]. by rewrite append_nil_r.
Qed.

Lemma accumulateAll_text events msg msg' :
  textProtocol msg events = true →
  accumulateAll msg events = inl msg' →
  messageText msg' = messageText msg +:+ joinAll (textDeltas events).
Proof.
  revert msg. induction events as [|e rest IH]; intros msg; simpl.
  - intros _ [= <-]. by rewrite append_nil_r.
  - intros [Hstep Hrest]%andb_prop.
    destruct (Accumulate msg e) as [msg1|err] eqn:Hacc; [|done].
    intros Hall. rewrite (IH _ Hrest Hall).
    rewrite (Accumulate_text _ _ _ Hstep Hacc).
    by rewrite (textDeltas_cons e rest), joinAll_app, append_assoc.
Qed.

End Accumulator.

Section Streaming.

Context `{JSONCodec}.

Local Arguments textDeltas : simpl never.

Lemma partsText_app ps1 ps2 :
  partsText (ps1 ++ ps2) = partsText ps1 +:+ partsText ps2.
Proof. unfold partsText. by rewrite omap_app, joinAll_app. Qed.

(** The text of the mapped response is the text of the message. *)
Lemma messageToLLMResponse_text msg :
  responseText (messageToLLMResponse msg) = messageText msg.
Proof.
  unfold responseText, messageText. simpl.
  induction (MsgContent msg) as [|block rest IH]; [done|].
  change (block :: rest) with ([block] ++ rest).
  rewrite messageToLLMResponse_loop_app, partsText_app, blocksText_app, IH.
  f_equal. rewrite blocksText_one. simpl. unfold partsText.
  repeat case_decide; simpl; try done; try congruence.
  by rewrite append_nil_r.
Qed.

(** With a consumer that never stops, the loop yields one partial
    response per text delta and then the mapped message. *)
Lemma generateStream_loop_drain events msg out msg' :
  accumulateAll msg events = inl msg' →
  generateStream_loop drain events None msg out =
  out ++ partials (textDeltas events) ++
  [(Some (setTurnComplete (messageToLLMResponse msg') true), None)].
Proof.
  revert msg out. induction events as [|e rest IH]; intros msg out; simpl.
  - by intros [= <-].
  - destruct (Accumulate msg e) as [msg1|err]; [|done].
    intros Hall. rewrite (textDeltas_cons e rest), textDeltas_one.
    destruct (textDelta e) as [d [|]]; simpl.
    + rewrite (IH _ _ Hall). by rewrite <- app_assoc.
    + by apply IH.
Qed.

Lemma partials_cons d deltas :
  partials (d :: deltas) = (Some (partialResponse d), None) :: partials deltas.
Proof. done. Qed.

(** The consumer decides: as long as it answers true the loop goes on,
    and the loop returns at the first partial response for which it
    answers false. *)
Lemma generateStream_loop_goes_on yield events msg out msg' :
  accumulateAll msg events = inl msg' →
  (∀ j, (j < length (textDeltas events))%nat →
        yield (out ++ partials (take (S j) (textDeltas events))) = true) →
  generateStream_loop yield events None msg out =
  out ++ partials (textDeltas events) ++
  [(Some (setTurnComplete (messageToLLMResponse msg') true), None)].
Proof.
  revert msg out. induction events as [|e rest IH]; intros msg out; simpl.
  - by intros [= <-].
  - destruct (Accumulate msg e) as [msg1|err]; [|done].
    intros Hall. rewrite (textDeltas_cons e rest), textDeltas_one.
    destruct (textDelta e) as [d [|]]; simpl; [|by apply IH].
    intros Hyes.
    pose proof (Hyes 0%nat ltac:(lia)) as H0. rewrite take_0 in H0.
    simpl in H0. rewrite H0.
    rewrite (IH msg1 _ Hall).
    + by rewrite <- app_assoc.
    + intros j Hj. specialize (Hyes (S j) ltac:(lia)).
      simpl in Hyes. by rewrite <- app_assoc.
Qed.

Lemma generateStream_loop_stops_at yield events msg out msg' k :
  accumulateAll msg events = inl msg' →
  (k < length (textDeltas events))%nat →
  (∀ j, (j < k)%nat →
        yield (out ++ partials (take (S j) (textDeltas events))) = true) →
  yield (out ++ partials (take (S k) (textDeltas events))) = false →
  generateStream_loop yield events None msg out =
  out ++ partials (take (S k) (textDeltas events)).
Proof.
  revert msg out k. induction events as [|e rest IH]; intros msg out k; simpl.
  - intros _ Hk. change (textDeltas []) with (@nil string) in Hk.
    simpl in Hk. lia.
  - destruct (Accumulate msg e) as [msg1|err]; [|done].
    intros Hall. rewrite (textDeltas_cons e rest), textDeltas_one.
    destruct (textDelta e) as [d [|]]; simpl; [|by apply IH].
    intros Hk Hyes Hno. destruct k as [|k].
    + rewrite take_0 in Hno |- *. simpl in Hno. by rewrite Hno.
    + pose proof (Hyes 0%nat ltac:(lia)) as H0. rewrite take_0 in H0.
      simpl in H0. rewrite H0.
      rewrite (IH msg1 _ k Hall).
      * by rewrite <- app_assoc.
      * lia.
      * intros j Hj. specialize (Hyes (S j) ltac:(lia)).
        simpl in Hyes. by rewrite <- app_assoc.
      * simpl in Hno. by rewrite <- app_assoc.
Qed.

(** C2, as the code has it: when the stream reports no error and the
    accumulator accepts every event, a consumer that goes on at every
    partial response (as the one that never stops does) is yielded one
    response per text delta, in order, each with [Partial] set and
    exactly one part holding that delta, and then one last response with
    [TurnComplete] set: the mapping of the message accumulated from all
    the events. On the provider's protocol the text of this last response
    is the concatenation of the deltas. A consumer that stops at a
    partial response, having gone on at the ones before, is yielded the
    partial responses up to that one and nothing else. *)
Theorem generateStream_partials_then_final m params msg :
  stErr (MessagesNewStreaming (client m) params) = None →
  accumulateAll zeroMessage
    (stEvents (MessagesNewStreaming (client m) params)) = inl msg →
  let deltas :=
    textDeltas (stEvents (MessagesNewStreaming (client m) params)) in
  let final := setTurnComplete (messageToLLMResponse msg) true in
  generateStream m params drain = partials deltas ++ [(Some final, None)] ∧
  (∀ delta,
     Partial (partialResponse delta) = true ∧
     TurnComplete (partialResponse delta) = false ∧
     respContent (partialResponse delta) =
     Some {| Role := "model";
             Parts := [Some {| Text := delta; PartFunctionCall := None;
                               PartFunctionResponse := None |}] |}) ∧
  TurnComplete final = true ∧ Partial final = false ∧
  (textProtocol zeroMessage
     (stEvents (MessagesNewStreaming (client m) params)) = true →
   responseText final = joinAll deltas) ∧
  (∀ yield,
     (∀ j, (j < length deltas)%nat →
           yield (partials (take (S j) deltas)) = true) →
     generateStream m params yield =
     partials deltas ++ [(Some final, None)]) ∧
  (∀ yield k,
     (k < length deltas)%nat →
     (∀ j, (j < k)%nat → yield (partials (take (S j) deltas)) = true) →
     yield (partials (take (S k) deltas)) = false →
     generateStream m params yield = partials (take (S k) deltas)).
Proof.
  intros Herr Hall deltas final. unfold generateStream. rewrite Herr.
  split_and!; try done.
  - by rewrite (generateStream_loop_drain _ _ _ _ Hall).
  - intros Hproto.
    change (responseText final) with (responseText (messageToLLMResponse msg)).
    rewrite messageToLLMResponse_text.
    by rewrite (accumulateAll_text _ _ _ Hproto Hall).
  - intros yield Hyes.
    by rewrite (generateStream_loop_goes_on yield _ _ [] _ Hall).
  - intros yield k Hk Hyes Hno.
    by rewrite (generateStream_loop_stops_at yield _ _ [] _ k Hall).
Qed.

End Streaming.

Lemma generateStream_partials_then_final_witness :
  ∃ final,
    @generateStream Example.codec (Example.claude Example.provider)
      Example.someParams drain =
    partials ["Hello"; " world"] ++ [(Some final, None)] ∧
    TurnComplete final = true ∧
    responseText final = "Hello world".
Proof.
  destruct (@generateStream_partials_then_final Example.codec
              (Example.claude Example.provider) Example.someParams
              {| MsgContent := [Example.textBlock "Hello world"];
                 StopReason := StopReasonEndTurn;
                 MsgUsage := {| InputTokens := 0; OutputTokens := 2 |} |})
    as (Hout & _ & Hturn & _ & Htext & _).
  - reflexivity.
  - reflexivity.
  - eexists. split; [exact Hout|]. split; [exact Hturn|].
    apply Htext. reflexivity.
Defined.

(** C2 as the specification words it fails when the consumer breaks out
    of its loop: on the stream of the streaming test, which has no error,
    the only and last response yielded is the partial response "Hello",
    which does not have [TurnComplete] set. *)
Lemma generateStream_stopped_consumer :
  stErr Example.helloStream = None ∧
  is_Some (match accumulateAll zeroMessage (stEvents Example.helloStream) with
           | inl msg => Some msg
           | inr _ => None
           end) ∧
  ∃ resp,
    last (@generateStream Example.codec (Example.claude Example.provider)
            Example.someParams Example.stopAtFirst) = Some (Some resp, None) ∧
    Partial resp = true ∧ TurnComplete resp = false.
Proof.
  split; [reflexivity|]. split; [by eexists|].
  exists (partialResponse "Hello"). split; [reflexivity|]. done.
Qed.

(** It also fails, with a consumer that never stops, on a stream outside
    the provider's protocol: when a text block does not start empty, the
    text of the last response is more than the deltas yielded before. *)
Lemma generateStream_prefilled_block :
  ∃ final,
    @generateStream Example.codec (Example.claude Example.prefilledProvider)
      Example.someParams drain = [(Some final, None)] ∧
    responseText final = "Hi" ∧
    joinAll (textDeltas (stEvents Example.prefilledStream)) = EmptyString.
Proof. eexists. split; [reflexivity|]. done. Qed.

(** ** The repository's tests, run on the embedding *)

Section RepositoryTests.

Import Example.

Local Existing Instance codec.

(** [TestConvert_systemInstruction]. *)
Example test_systemInstruction :
  systemFromContent
    {| Role := EmptyString;
       Parts := [textPart "You are a surf analyst.";
                 textPart "Rate conditions."] |} =
  Some [ {| tbType := "text";
            tbText := "You are a surf analyst." +:+ Strings.newline +:+
                      "Rate conditions." |} ].
Proof. reflexivity. Qed.

(** [TestConvert_schemaTypes]. *)
Example test_schemaTypes :
  let got := schemaToMap (Some typesSchema) in
  index got "type" = AString "object" ∧
  index got "required" = AStrings ["name"] ∧
  ∃ props nameSchema tagsSchema items,
    index got "properties" = AMap props ∧
    index props "name" = AMap nameSchema ∧
    index nameSchema "type" = AString "string" ∧
    index props "tags" = AMap tagsSchema ∧
    index tagsSchema "type" = AString "array" ∧
    index tagsSchema "items" = AMap items ∧
    index items "type" = AString "string".
Proof.
  split; [reflexivity|]. split; [reflexivity|].
  do 4 eexists. repeat split; vm_compute; reflexivity.
Qed.

(** [TestConvert_toolResultInRequest]. *)
Example test_toolResultInRequest :
  length <$> contentsToMessages
               [Some userContent; Some modelContent; Some resultContent] =
  Some 3%nat.
Proof. reflexivity. Qed.

(** [TestGenerate_text]. *)
Example test_generate_text :
  ∃ got,
    GenerateContent (claude provider)
      {| Contents := [Some {| Role := "user";
                              Parts := [textPart "What is the capital?"] |}];
         Config := None |} false drain = Some [(Some got, None)] ∧
    respContent got = Some {| Role := "model"; Parts := [textPart "Paris"] |} ∧
    respFinishReason got = FinishReasonStop ∧
    PromptTokenCount <$> respUsageMetadata got = Some 14.
Proof. eexists. split; [reflexivity|]. repeat split. Qed.

(** [TestGenerateStream_text]. *)
Example test_generateStream_text :
  ∃ final,
    GenerateContent (claude provider)
      {| Contents := [Some {| Role := "user";
                              Parts := [textPart "Say hello"] |}];
         Config := None |} true drain =
    Some [(Some (partialResponse "Hello"), None);
          (Some (partialResponse " world"), None);
          (Some final, None)] ∧
    Partial final = false ∧ TurnComplete final = true ∧
    respContent final =
      Some {| Role := "model"; Parts := [textPart "Hello world"] |}.
Proof. eexists. split; [reflexivity|]. repeat split. Qed.

End RepositoryTests.

(** * Further properties *)

(** ** [schemaToMap] *)

Section SchemaToMap.

Local Set Warnings "-clear-no-such-hyp".

Lemma schemaToMap_sub (v : option Schema) :
  match v with
  | None => {[ "type" := AString "object" ]}
  | Some s' => schemaToMap_nonnil s'
  end = schemaToMap v.
Proof. by destruct v. Qed.

(** The keys of a converted schema: the lower-cased type always, and the
    description, the properties, the required names, the enumeration and
    the items exactly when the schema has them (no key is written for an
    empty one), and no other key. *)
Theorem schemaToMap_keys (s : Schema) :
  let m := schemaToMap (Some s) in
  m !! "type" = Some (AString (Strings.ToLower (schemaType s))) ∧
  (is_Some (m !! "description") ↔ schemaDescription s ≠ EmptyString) ∧
  (is_Some (m !! "properties") ↔ schemaProperties s ≠ ∅) ∧
  (is_Some (m !! "required") ↔ schemaRequired s ≠ []) ∧
  (is_Some (m !! "enum") ↔ schemaEnum s ≠ []) ∧
  (is_Some (m !! "items") ↔ is_Some (schemaItems s)) ∧
  (∀ k, is_Some (m !! k) →
        k ∈ ["type"; "description"; "properties"; "required"; "enum";
             "items"]).
Proof.
  destruct s as [ty desc props req enum items]. simpl.
  pose proof (map_size_empty_iff props) as Hsize.
  pose proof (length_zero_iff_nil req) as Hreq.
  pose proof (length_zero_iff_nil enum) as Henum.
  assert (Hkeys : ∀ k : string,
    k ∈ ["type"; "description"; "properties"; "required"; "enum"; "items"] ∨
    (k ≠ "type" ∧ k ≠ "description" ∧ k ≠ "properties" ∧ k ≠ "required" ∧
     k ≠ "enum" ∧ k ≠ "items")).
  { intros k. rewrite !elem_of_cons.
    destruct (decide (k = "type")); [tauto|].
    destruct (decide (k = "description")); [tauto|].
    destruct (decide (k = "properties")); [tauto|].
    destruct (decide (k = "required")); [tauto|].
    destruct (decide (k = "enum")); [tauto|].
    destruct (decide (k = "items")); tauto. }
  destruct items as [it|];
    destruct (decide (desc = EmptyString)) as [Hd|Hd];
    destruct (decide (size props = 0%nat)) as [Hp|Hp];
    destruct (decide (length req = 0%nat)) as [Hr|Hr];
    destruct (decide (length enum = 0%nat)) as [He|He];
    (split_and!;
     [ by simplify_map_eq
     | split; [intros [? ?]|intros ?]; simplify_map_eq; naive_solver
     | split; [intros [? ?]|intros ?]; simplify_map_eq; naive_solver
     | split; [intros [? ?]|intros ?]; simplify_map_eq; naive_solver
     | split; [intros [? ?]|intros ?]; simplify_map_eq; naive_solver
     | split; [intros [? ?]|intros [? ?]]; simplify_map_eq; naive_solver
     | intros k [v Hk];
       destruct (Hkeys k) as [Hin|(? & ? & ? & ? & ? & ?)]; [done|];
       by simplify_map_eq ]).
Qed.

(** The conversion is recursive: the converted properties have the keys
    of the schema's properties, each holding the conversion of the
    property's schema (the bare object schema for a nil one), and the
    items hold the conversion of the item schema. *)
Theorem schemaToMap_nested (s : Schema) :
  (∀ k v, schemaProperties s !! k = Some v →
     ∃ props,
       index (schemaToMap (Some s)) "properties" = AMap props ∧
       dom props = dom (schemaProperties s) ∧
       props !! k = Some (AMap (schemaToMap v))) ∧
  (∀ it, schemaItems s = Some it →
     index (schemaToMap (Some s)) "items" = AMap (schemaToMap (Some it))) ∧
  schemaToMap None = {[ "type" := AString "object" ]}.
Proof.
  destruct s as [ty desc props req enum items]. simpl. split_and!.
  - intros k v Hk.
    assert (Hne : size props ≠ 0%nat).
    { intros Hz%map_size_empty_iff. by rewrite Hz in Hk. }
    eexists. split_and!.
    + unfold index.
      destruct items; repeat case_decide; simplify_map_eq; reflexivity.
    + by rewrite dom_fmap_L.
    + rewrite lookup_fmap, Hk. simpl. by rewrite schemaToMap_sub.
  - intros it ->. unfold index. by simplify_map_eq.
  - done.
Qed.

End SchemaToMap.

Lemma schemaToMap_nested_witness :
  ∃ props,
    index (schemaToMap (Some Example.typesSchema)) "properties" = AMap props ∧
    props !! "tags" =
    Some (AMap (schemaToMap
                  (Some (Example.leafSchema "ARRAY"
                           (Some (Example.leafSchema "STRING" None)))))).
Proof.
  destruct (schemaToMap_nested Example.typesSchema) as (Hprops & _ & _).
  destruct (Hprops "tags"
              (Some (Example.leafSchema "ARRAY"
                       (Some (Example.leafSchema "STRING" None)))))
    as (props & Hp & _ & Hk); [reflexivity|].
  exists props. split; [exact Hp|exact Hk].
Defined.

(** ** [extractTools] *)

Section ExtractToolsMore.

Context `{JSONCodec}.

Lemma declarations_cons t rest :
  declarations (Some t :: rest) =
  omap id (FunctionDeclarations t) ++ declarations rest.
Proof. done. Qed.

Lemma declarations_nil_tool rest : declarations (None :: rest) = declarations rest.
Proof. done. Qed.

(** What the inner loop adds to its accumulator. *)
Lemma extractTools_decls_added fds result result' :
  extractTools_decls fds result = Some result' →
  ∃ added,
    result' = result ++ added ∧
    tpName <$> added = fdName <$> omap id fds ∧
    tpDescription <$> added = fdDescription <$> omap id fds ∧
    Forall (λ d, isType (tpInputSchema d) = "object") added.
Proof.
  revert result. induction fds as [|[fd|] rest IH]; intros result; simpl.
  - intros [= <-]. exists []. by rewrite app_nil_r.
  - intros Hrest. destruct (IH _ Hrest) as (added & -> & Hn & Hd & Ht).
    eexists (_ :: added). split_and!.
    + by rewrite <- app_assoc.
    + rewrite fmap_cons. simpl. by f_equal.
    + rewrite fmap_cons. simpl. by f_equal.
    + constructor; [|done]. simpl.
      repeat case_match; reflexivity.
  - done.
Qed.

Lemma extractTools_loop_added tools result result' :
  extractTools_loop tools result = Some result' →
  ∃ added,
    result' = result ++ added ∧
    tpName <$> added = fdName <$> declarations tools ∧
    tpDescription <$> added = fdDescription <$> declarations tools ∧
    Forall (λ d, isType (tpInputSchema d) = "object") added.
Proof.
  revert result. induction tools as [|[t|] rest IH]; intros result; simpl.
  - intros [= <-]. exists []. by rewrite app_nil_r.
  - destruct (extractTools_decls (FunctionDeclarations t) result)
      as [r1|] eqn:Hd; simpl; [|done].
    intros Hrest.
    destruct (extractTools_decls_added _ _ _ Hd) as (a1 & -> & Hn1 & Hd1 & Ht1).
    destruct (IH _ Hrest) as (a2 & -> & Hn2 & Hd2 & Ht2).
    exists (a1 ++ a2). rewrite declarations_cons, !fmap_app.
    rewrite Hn1, Hn2, Hd1, Hd2. split_and!; try done.
    + by rewrite app_assoc.
    + by apply Forall_app.
  - done.
Qed.

(** The tool definitions follow the function declarations one for one:
    when no tool and no declaration is nil, [extractTools] returns one
    definition per declaration, in the order of the declarations, with
    the declaration's name and description, and every input schema has the
    type "object". *)
Theorem extractTools_one_per_declaration tools :
  noNilTools tools = true →
  ∃ defs,
    extractTools tools = Some defs ∧
    tpName <$> defs = fdName <$> declarations tools ∧
    tpDescription <$> defs = fdDescription <$> declarations tools ∧
    Forall (λ d, isType (tpInputSchema d) = "object") defs.
Proof.
  intros Hnn. destruct (extractTools_loop_total tools [] Hnn) as [defs Hdefs].
  exists defs. split; [done|].
  by destruct (extractTools_loop_added _ _ _ Hdefs) as (added & -> & ? & ? & ?).
Qed.

Lemma schemaToMap_required (s : Schema) :
  index (schemaToMap (Some s)) "required" =
  match schemaRequired s with
  | [] => ANil
  | req => AStrings req
  end.
Proof.
  destruct s as [ty desc props [|r req] enum items]; simpl; unfold index;
    destruct items; repeat case_decide; simplify_map_eq; done.
Qed.

(** A declaration with a structured schema: the tool's required names
    are the schema's, and its properties are the converted properties of
    the schema (nil when it has none); both versions of [extractTools]
    build this tool. *)
Theorem extractTools_structured fd s :
  fdParameters fd = Some s →
  let tool :=
    {| tpName := fdName fd; tpDescription := fdDescription fd;
       tpInputSchema :=
         {| isType := "object";
            isProperties := index (schemaToMap (Some s)) "properties";
            isRequired := schemaRequired s |} |} in
  extractTools (oneDeclaration fd) = Some [tool] ∧
  convert.extractTools (oneDeclaration fd) = Some [tool] ∧
  (schemaProperties s = ∅ → isProperties (tpInputSchema tool) = ANil).
Proof.
  intros Hs. unfold extractTools, convert.extractTools, oneDeclaration. simpl.
  rewrite Hs. simpl.
  pose proof (schemaToMap_required s) as Hreq. simpl in Hreq. rewrite Hreq.
  split_and!.
  - by destruct (schemaRequired s).
  - by destruct (schemaRequired s).
  - intros Hp. destruct s as [ty desc props req enum items].
    simpl in *. subst props. unfold index.
    destruct items; repeat case_decide; simplify_map_eq; done.
Qed.

Lemma stringsOf_strings (names : list string) :
  stringsOf (AString <$> names) = names.
Proof.
  induction names as [|n names IH]; [done|].
  rewrite fmap_cons. simpl. by rewrite IH.
Qed.

Lemma stringsOf_length raw : (length (stringsOf raw) ≤ length raw)%nat.
Proof. induction raw as [|[] raw IH]; simpl; lia. Qed.

(** A declaration that only has a raw JSON schema: when the schema
    survives the trip through JSON, the tool takes its properties from the
    decoded "properties" and its required names from the decoded
    "required" list, whose strings come back in order; when the trip
    fails, the tool keeps the bare object schema. *)
Theorem extractTools_json_schema fd :
  fdParameters fd = None →
  fdParametersJsonSchema fd ≠ ANil →
  let bare := {| isType := "object"; isProperties := ANil;
                 isRequired := [] |} in
  let tool schema :=
    {| tpName := fdName fd; tpDescription := fdDescription fd;
       tpInputSchema := schema |} in
  (jsonUnmarshalMap (jsonMarshal (fdParametersJsonSchema fd)) = None →
   extractTools (oneDeclaration fd) = Some [tool bare]) ∧
  (∀ schemaMap names,
     jsonUnmarshalMap (jsonMarshal (fdParametersJsonSchema fd))
       = Some schemaMap →
     index schemaMap "required" = ASlice (AString <$> names) →
     extractTools (oneDeclaration fd) =
     Some [tool {| isType := "object";
                   isProperties := index schemaMap "properties";
                   isRequired := names |}]) ∧
  (∀ schemaMap,
     jsonUnmarshalMap (jsonMarshal (fdParametersJsonSchema fd))
       = Some schemaMap →
     (∀ raw, index schemaMap "required" ≠ ASlice raw) →
     extractTools (oneDeclaration fd) =
     Some [tool {| isType := "object";
                   isProperties := index schemaMap "properties";
                   isRequired := [] |}]).
Proof.
  intros Hp Hj. unfold extractTools, oneDeclaration. simpl. rewrite Hp.
  split_and!.
  - intros Hfail. destruct (fdParametersJsonSchema fd); try done;
      simpl; by rewrite Hfail.
  - intros schemaMap names Hok Hreq.
    destruct (fdParametersJsonSchema fd); try done;
      simpl; rewrite Hok, Hreq; simpl; by rewrite stringsOf_strings.
  - intros schemaMap Hok Hreq.
    destruct (fdParametersJsonSchema fd); try done;
      simpl; rewrite Hok;
      destruct (index schemaMap "required") as [| | | | |raw|] eqn:Hr;
      try done; by destruct (Hreq raw).
Qed.

(** [convert.go] never looks at [ParametersJsonSchema]: for a declaration
    that only has a raw JSON schema it builds the bare object schema, so
    the two versions differ as soon as the decoded schema has
    properties. *)
Theorem extractTools_versions_differ fd schemaMap :
  fdParameters fd = None →
  fdParametersJsonSchema fd ≠ ANil →
  jsonUnmarshalMap (jsonMarshal (fdParametersJsonSchema fd)) = Some schemaMap →
  index schemaMap "properties" ≠ ANil →
  convert.extractTools (oneDeclaration fd) =
    Some [ {| tpName := fdName fd; tpDescription := fdDescription fd;
              tpInputSchema := {| isType := "object"; isProperties := ANil;
                                  isRequired := [] |} |} ] ∧
  extractTools (oneDeclaration fd) ≠ convert.extractTools (oneDeclaration fd).
Proof.
  intros Hp Hj Hok Hprops.
  assert (Hc : convert.extractTools (oneDeclaration fd) =
    Some [ {| tpName := fdName fd; tpDescription := fdDescription fd;
              tpInputSchema := {| isType := "object"; isProperties := ANil;
                                  isRequired := [] |} |} ]).
  { unfold convert.extractTools, oneDeclaration. simpl. by rewrite Hp. }
  split; [done|]. rewrite Hc.
  unfold extractTools, oneDeclaration. simpl. rewrite Hp.
  destruct (fdParametersJsonSchema fd); try done; simpl; rewrite Hok;
    intros Heq; destruct (index schemaMap "required");
    unfold setRequired, setProperties in Heq; simpl in Heq; congruence.
Qed.

Lemma extractTools_decls_no_json fds result :
  forallb (λ fd, isSome (fdParameters fd)
                 || match fdParametersJsonSchema fd with
                    | ANil => true
                    | _ => false
                    end) (omap id fds) = true →
  extractTools_decls fds result = convert.extractTools_decls fds result.
Proof.
  revert result. induction fds as [|[fd|] rest IH]; intros result; simpl.
  - done.
  - intros [Hfd Hrest]%andb_prop. rewrite <- (IH _ Hrest).
    destruct (fdParameters fd) as [s|]; simpl in *.
    + do 3 f_equal; by destruct (index (schemaToMap_nonnil s) "required").
    + by destruct (fdParametersJsonSchema fd).
  - done.
Qed.

Lemma extractTools_loop_no_json tools :
  noJsonSchemaOnly tools = true →
  extractTools tools = convert.extractTools tools.
Proof.
  unfold extractTools, convert.extractTools, noJsonSchemaOnly.
  generalize (@nil ToolParam).
  induction tools as [|[t|] rest IH]; intros result; simpl.
  - done.
  - rewrite declarations_cons, forallb_app.
    intros [Ht Hrest]%andb_prop.
    rewrite (extractTools_decls_no_json _ _ Ht).
    destruct (convert.extractTools_decls _ _); simpl; [|done].
    by apply IH.
  - done.
Qed.

(** The two versions agree on more than the structured declarations: they
    return the same thing whenever no declaration relies on a raw JSON
    schema alone. *)
Theorem extractTools_versions_agree_without_json tools :
  noJsonSchemaOnly tools = true →
  extractTools tools = convert.extractTools tools.
Proof. apply extractTools_loop_no_json. Qed.

End ExtractToolsMore.

Lemma extractTools_one_per_declaration_witness :
  ∃ defs,
    @extractTools Example.codec [Some Example.spotTool] = Some defs ∧
    tpName <$> defs = ["get_spots_of_interest"].
Proof.
  destruct (@extractTools_one_per_declaration Example.codec
              [Some Example.spotTool]) as (defs & Hd & Hn & _);
    [reflexivity|].
  exists defs. split; [exact Hd|exact Hn].
Defined.

Lemma extractTools_structured_witness :
  ∃ tool,
    convert.extractTools [Some Example.spotTool] = Some [tool] ∧
    isRequired (tpInputSchema tool) = ["name"].
Proof.
  eexists. split.
  - refine (proj1 (proj2 (@extractTools_structured Example.codec
      {| fdName := "get_spots_of_interest";
         fdDescription := "Returns spots of interest.";
         fdParameters := Some Example.spotSchema;
         fdParametersJsonSchema := ANil |} Example.spotSchema _))).
    reflexivity.
  - reflexivity.
Defined.

Lemma extractTools_json_schema_witness :
  ∃ tool,
    @extractTools Example2.codec (oneDeclaration Example2.rawDeclaration) =
      Some [tool] ∧
    isRequired (tpInputSchema tool) = ["name"].
Proof.
  destruct (@extractTools_json_schema Example2.codec Example2.rawDeclaration)
    as (_ & Hok & _).
  - reflexivity.
  - discriminate.
  - eexists. split.
    + apply (Hok Example2.rawSchema ["name"]); reflexivity.
    + reflexivity.
Defined.

Lemma extractTools_versions_differ_witness :
  @extractTools Example2.codec (oneDeclaration Example2.rawDeclaration) ≠
  convert.extractTools (oneDeclaration Example2.rawDeclaration).
Proof.
  apply (@extractTools_versions_differ Example2.codec
           Example2.rawDeclaration Example2.rawSchema).
  - reflexivity.
  - discriminate.
  - reflexivity.
  - vm_compute. discriminate.
Defined.

Lemma extractTools_versions_agree_without_json_witness :
  @extractTools Example.codec
    [Some Example.spotTool;
     Some {| FunctionDeclarations :=
               [Some {| fdName := "ping"; fdDescription := "No argument.";
                        fdParameters := None;
                        fdParametersJsonSchema := ANil |}] |}] =
  convert.extractTools
    [Some Example.spotTool;
     Some {| FunctionDeclarations :=
               [Some {| fdName := "ping"; fdDescription := "No argument.";
                        fdParameters := None;
                        fdParametersJsonSchema := ANil |}] |}].
Proof.
  apply (@extractTools_versions_agree_without_json Example.codec).
  reflexivity.
Defined.

(** ** The request mapper, further *)

Section RequestMapperMore.

Context `{JSONCodec}.

Lemma partsToBlocks_one p blocks :
  partsToBlocks [Some p] = Some blocks →
  (length blocks ≤ 1)%nat ∧ Forall wellFormedBlock blocks.
Proof.
  unfold partsToBlocks. rewrite partsToBlocks_loop_step. simpl.
  intros [= <-].
  case_decide; [by repeat constructor|].
  destruct (PartFunctionCall p); [by repeat constructor|].
  destruct (PartFunctionResponse p); by repeat constructor.
Qed.

Lemma partsToBlocks_bounded parts blocks :
  partsToBlocks parts = Some blocks →
  (length blocks ≤ length parts)%nat ∧ Forall wellFormedBlock blocks.
Proof.
  revert blocks. induction parts as [|[p|] rest IH]; intros blocks.
  - intros [= <-]. by split.
  - rewrite partsToBlocks_cons.
    destruct (partsToBlocks [Some p]) as [bs1|] eqn:H1; simpl; [|done].
    destruct (partsToBlocks rest) as [bs2|]; simpl; [|done].
    intros [= <-].
    destruct (partsToBlocks_one _ _ H1) as [Hl1 Hw1].
    destruct (IH bs2 eq_refl) as [Hl2 Hw2].
    split; [rewrite length_app; simpl; lia|by apply Forall_app].
  - done.
Qed.

(** The blocks built from a list of parts: at most one per part, never a
    text block with an empty text, and never a tool result marked as an
    error. *)
Theorem partsToBlocks_blocks parts blocks :
  partsToBlocks parts = Some blocks →
  (length blocks ≤ length parts)%nat ∧ Forall wellFormedBlock blocks.
Proof. apply partsToBlocks_bounded. Qed.

(** A part that only holds a function response becomes, at its place
    among the blocks, a tool result for the response's id whose content is
    the JSON text of the response and which is not an error; the
    response's name is not sent. *)
Theorem partsToBlocks_function_response p fr before after bs1 bs2 :
  Text p = EmptyString → PartFunctionCall p = None →
  PartFunctionResponse p = Some fr →
  partsToBlocks before = Some bs1 → partsToBlocks after = Some bs2 →
  partsToBlocks (before ++ Some p :: after) =
  Some (bs1 ++
        NewToolResultBlock (frID fr) (jsonMarshal (AMap (frResponse fr))) false
        :: bs2).
Proof.
  intros Ht Hfc Hfr H1 H2.
  rewrite partsToBlocks_app, H1. simpl. rewrite partsToBlocks_cons, H2.
  unfold partsToBlocks at 1. simpl. rewrite Ht, Hfc, Hfr.
  by rewrite decide_False by (intros Hne; by apply Hne).
Qed.

(** The switch takes the first case that applies and nothing else: a part
    with a text gives its text block only, so a function call or a
    function response it also holds is not sent; a part without text
    that holds a call and a response gives the tool_use block only. *)
Theorem partsToBlocks_first_case_only p :
  (Text p ≠ EmptyString →
   partsToBlocks [Some p] = Some [NewTextBlock (Text p)]) ∧
  (∀ fc, Text p = EmptyString → PartFunctionCall p = Some fc →
     partsToBlocks [Some p] =
     Some [NewToolUseBlock (fcID fc) (AMap (fcArgs fc)) (fcName fc)]) ∧
  (Text p = EmptyString → PartFunctionCall p = None →
   PartFunctionResponse p = None → partsToBlocks [Some p] = Some []).
Proof.
  split_and!.
  - apply partsToBlocks_text_first.
  - intros fc. apply partsToBlocks_function_call.
  - intros Ht Hfc Hfr. unfold partsToBlocks. simpl. rewrite Ht, Hfc, Hfr.
    by rewrite decide_False by (intros Hne; by apply Hne).
Qed.

(** Converting a conversation is compositional: the messages of two
    histories put end to end are the messages of the first followed by the
    messages of the second (nothing is merged or reordered), and the
    conversion panics when one of the two does. *)
Theorem contentsToMessages_concat l1 l2 :
  contentsToMessages (l1 ++ l2) =
  match contentsToMessages l1, contentsToMessages l2 with
  | Some msgs1, Some msgs2 => Some (msgs1 ++ msgs2)
  | _, _ => None
  end.
Proof.
  rewrite contentsToMessages_app.
  destruct (contentsToMessages l1); simpl; [|done].
  by destruct (contentsToMessages l2).
Qed.

(** The messages built from a conversation: at most one per content, each
    with the role "user" or "assistant", and made of well-formed
    blocks. *)
Theorem contentsToMessages_messages contents msgs :
  contentsToMessages contents = Some msgs →
  (length msgs ≤ length contents)%nat ∧
  Forall (λ m, (mpRole m = "user" ∨ mpRole m = "assistant") ∧
               Forall wellFormedBlock (mpContent m)) msgs.
Proof.
  revert msgs. induction contents as [|[c|] rest IH]; intros msgs.
  - intros [= <-]. by split.
  - destruct (partsToBlocks (Parts c)) as [[|b blocks]|] eqn:Hb.
    + rewrite contentsToMessages_no_block by done.
      intros Hrest. destruct (IH _ Hrest). split; [simpl; lia|done].
    + rewrite (contentsToMessages_block _ _ _ Hb) by done.
      destruct (contentsToMessages rest) as [msgs'|]; simpl; [|done].
      intros [= <-]. destruct (IH _ eq_refl) as [Hl Hf].
      split; [simpl; lia|]. constructor; [|done]. simpl. split.
      * unfold roleOf. case_decide; auto.
      * by destruct (partsToBlocks_bounded _ _ Hb).
    + by rewrite contentsToMessages_panic.
  - rewrite contentsToMessages_nil_content.
    intros Hrest. destruct (IH _ Hrest). split; [simpl; lia|done].
Qed.

Lemma concat_nonempty sep x xs :
  x ≠ EmptyString → String.concat sep (x :: xs) ≠ EmptyString.
Proof.
  intros Hx. destruct x as [|c x]; [done|].
  destruct xs as [|y xs]; [done|].
  change (String c (x +:+ sep +:+ String.concat sep (y :: xs)) ≠ EmptyString).
  done.
Qed.

Lemma systemFromContent_loop_nonempty ps parts parts' :
  systemFromContent_loop ps parts = Some parts' →
  Forall (λ s, s ≠ EmptyString) parts →
  Forall (λ s, s ≠ EmptyString) parts'.
Proof.
  revert parts. induction ps as [|[p|] rest IH]; intros parts; simpl.
  - by intros [= <-].
  - intros Hrest Hne. apply (IH _ Hrest).
    case_decide; [done|]. apply Forall_app. split; [done|].
    by repeat constructor.
  - done.
Qed.

Lemma systemFromContent_shape c sys :
  systemFromContent c = Some sys →
  (sys = [] ∨ ∃ text, sys = [ {| tbType := "text"; tbText := text |} ] ∧
                      text ≠ EmptyString) ∧
  (∀ role, systemFromContent {| Role := role; Parts := Parts c |} = Some sys).
Proof.
  unfold systemFromContent. simpl.
  destruct (systemFromContent_loop (Parts c) []) as [parts|] eqn:Hl;
    simpl; [|done].
  intros [= <-]. split; [|done].
  case_decide; [by left|right].
  eexists. split; [done|].
  pose proof (systemFromContent_loop_nonempty _ _ _ Hl (Forall_nil_2 _)) as Hne.
  destruct parts as [|x xs]; [done|].
  apply concat_nonempty. by inversion Hne.
Qed.

(** The system prompt built from an instruction is at most one block, of
    type "text", and its text is never empty; the instruction's role plays
    no part. *)
Theorem systemFromContent_one_text_block c sys :
  systemFromContent c = Some sys →
  (sys = [] ∨ ∃ text, sys = [ {| tbType := "text"; tbText := text |} ] ∧
                      text ≠ EmptyString) ∧
  (∀ role, systemFromContent {| Role := role; Parts := Parts c |} = Some sys).
Proof. apply systemFromContent_shape. Qed.

End RequestMapperMore.

Lemma partsToBlocks_blocks_witness :
  ∃ blocks,
    @partsToBlocks Example.codec
      [Example.textPart "Show spots"; Example.textPart EmptyString;
       Some Example.callPart] = Some blocks ∧
    (length blocks ≤ 3)%nat ∧ Forall wellFormedBlock blocks.
Proof.
  eexists. split; [reflexivity|].
  apply (@partsToBlocks_blocks Example.codec
           [Example.textPart "Show spots"; Example.textPart EmptyString;
            Some Example.callPart]).
  reflexivity.
Defined.

Lemma partsToBlocks_function_response_witness :
  ∃ content,
    @partsToBlocks Example.codec
      ([Example.textPart "Here it is"] ++
       Some {| Text := EmptyString; PartFunctionCall := None;
               PartFunctionResponse :=
                 Some {| frID := "toolu_01A"; frName := "get_spots";
                         frResponse := Example.spotArgs |} |} :: []) =
    Some ([NewTextBlock "Here it is"] ++
          NewToolResultBlock "toolu_01A" content false :: []).
Proof.
  eexists.
  apply (@partsToBlocks_function_response Example.codec
           {| Text := EmptyString; PartFunctionCall := None;
              PartFunctionResponse :=
                Some {| frID := "toolu_01A"; frName := "get_spots";
                        frResponse := Example.spotArgs |} |}
           {| frID := "toolu_01A"; frName := "get_spots";
              frResponse := Example.spotArgs |}
           [Example.textPart "Here it is"] []); reflexivity.
Defined.

Lemma partsToBlocks_first_case_only_witness :
  @partsToBlocks Example.codec
    [Some {| Text := "Calling"; PartFunctionCall := Some Example.spotCall;
             PartFunctionResponse := None |}] =
  Some [NewTextBlock "Calling"].
Proof.
  apply (proj1 (@partsToBlocks_first_case_only Example.codec
           {| Text := "Calling"; PartFunctionCall := Some Example.spotCall;
              PartFunctionResponse := None |})).
  discriminate.
Defined.

Lemma contentsToMessages_messages_witness :
  ∃ msgs,
    @contentsToMessages Example.codec
      [Some Example.userContent; None; Some Example.modelContent] =
      Some msgs ∧
    (length msgs ≤ 3)%nat.
Proof.
  eexists. split; [reflexivity|].
  apply (@contentsToMessages_messages Example.codec
           [Some Example.userContent; None; Some Example.modelContent]).
  reflexivity.
Defined.

Lemma systemFromContent_one_text_block_witness :
  ∃ sys,
    systemFromContent Example.instruction = Some sys ∧
    (sys = [] ∨ ∃ text, sys = [ {| tbType := "text"; tbText := text |} ] ∧
                        text ≠ EmptyString).
Proof.
  eexists. split; [reflexivity|].
  apply (systemFromContent_one_text_block Example.instruction).
  reflexivity.
Defined.

(** ** [buildParams], further *)

Section BuildParamsMore.

Context `{JSONCodec}.

Lemma logParts_nil parts : noNilParts parts = false → logParts parts = None.
Proof.
  induction parts as [|[p|] rest IH]; simpl; [done| |done].
  intros Hrest. by rewrite IH.
Qed.

Lemma logContents_nil contents :
  noNilContents contents = false → logContents contents = None.
Proof.
  induction contents as [|[c|] rest IH]; simpl; [done| |done].
  intros [Hc|Hrest]%andb_false_iff.
  - by rewrite logParts_nil.
  - rewrite IH by done. by destruct (logParts (Parts c)).
Qed.

Lemma systemFromContent_nil c :
  noNilParts (Parts c) = false → systemFromContent c = None.
Proof.
  unfold systemFromContent. generalize (@nil string).
  induction (Parts c) as [|[p|] rest IH]; intros parts; simpl; [done| |done].
  intros Hrest. specialize (IH (if decide (Text p = EmptyString) then parts
                                else parts ++ [Text p]) Hrest).
  by destruct (systemFromContent_loop rest _).
Qed.

Lemma extractTools_decls_nil fds result :
  forallb isSome fds = false → extractTools_decls fds result = None.
Proof.
  revert result. induction fds as [|[fd|] rest IH]; intros result; simpl;
    [done| |done].
  intros Hrest. by apply IH.
Qed.

Lemma extractTools_nil tools :
  noNilTools tools = false → extractTools tools = None.
Proof.
  unfold extractTools. generalize (@nil ToolParam).
  induction tools as [|[t|] rest IH]; intros result; simpl; [done| |done].
  intros [Ht|Hrest]%andb_false_iff.
  - by rewrite extractTools_decls_nil.
  - destruct (extractTools_decls _ _); simpl; [by apply IH|done].
Qed.

(** Every path of the streaming loop yields at least once. *)
Lemma generateStream_loop_longer yield events err msg out :
  (length out < length (generateStream_loop yield events err msg out))%nat.
Proof.
  revert msg out. induction events as [|e rest IH]; intros msg out; simpl.
  - destruct err; rewrite length_app; simpl; lia.
  - destruct (Accumulate msg e) as [msg1|aerr];
      [|rewrite length_app; simpl; lia].
    destruct (textDelta e) as [d [|]]; [|apply IH].
    destruct (yield (out ++ [(Some (partialResponse d), None)])).
    + specialize (IH msg1 (out ++ [(Some (partialResponse d), None)])).
      rewrite length_app in IH. simpl in IH. lia.
    + rewrite length_app. simpl. lia.
Qed.

(** [buildParams] returns exactly on the requests without a nil pointer in
    the places it visits: it panics when a content or a part is nil and,
    under a non-nil config, when a part of the system instruction, a tool
    or a function declaration is nil. On the requests on which it
    returns, [GenerateContent] yields at least one pair, streaming or
    not and whatever the consumer does; on the others it panics before
    yielding anything. *)
Theorem buildParams_returns_iff m req :
  (is_Some (buildParams m req) ↔ noNilRequest req = true) ∧
  (∀ stream yield,
     (∃ out, GenerateContent m req stream yield = Some out ∧ out ≠ []) ↔
     noNilRequest req = true) ∧
  (∀ stream yield,
     noNilRequest req = false → GenerateContent m req stream yield = None).
Proof.
  assert (Hiff : is_Some (buildParams m req) ↔ noNilRequest req = true).
  { unfold noNilRequest, buildParams. split.
    - intros [params Hp].
      destruct (noNilContents (Contents req)) eqn:Hc;
        [|by rewrite logContents_nil in Hp].
      rewrite logContents_total in Hp by done. simpl in *.
      destruct (contentsToMessages (Contents req)); simpl in Hp; [|done].
      destruct (Config req) as [cfg|]; [|done].
      destruct (noNilTools (Tools cfg)) eqn:Ht.
      + rewrite andb_true_r.
        destruct (SystemInstruction cfg) as [c|]; [|done].
        destruct (noNilParts (Parts c)) eqn:Hs; [done|].
        by rewrite systemFromContent_nil in Hp.
      + rewrite extractTools_nil in Hp by done.
        by destruct (SystemInstruction cfg) as [c|];
          [destruct (systemFromContent c)|].
    - intros [Hc Hcfg]%andb_prop.
      rewrite logContents_total by done. simpl.
      destruct (contentsToMessages_total _ Hc) as [msgs ->]. simpl.
      destruct (Config req) as [cfg|]; [|by eexists].
      apply andb_prop in Hcfg as [Hs Ht].
      destruct (extractTools_loop_total (Tools cfg) [] Ht) as [tools Htools].
      unfold extractTools. rewrite Htools.
      destruct (SystemInstruction cfg) as [c|].
      + rewrite systemFromContent_texts by done. by eexists.
      + by eexists. }
  split_and!; [done| |].
  - intros stream yield. rewrite <- Hiff. unfold GenerateContent.
    destruct (buildParams m req) as [params|]; simpl.
    + split; [intros _; by eexists|intros _].
      destruct stream.
      * eexists. split; [reflexivity|]. unfold generateStream.
        intros Hnil.
        pose proof (generateStream_loop_longer yield
          (stEvents (MessagesNewStreaming (client m) params))
          (stErr (MessagesNewStreaming (client m) params)) zeroMessage [])
          as Hlen.
        rewrite Hnil in Hlen. simpl in Hlen. lia.
      * eexists. split; [reflexivity|].
        by destruct (MessagesNew (client m) params).
    + split; [by intros (out & ? & _)|by intros [? ?]].
  - intros stream yield Hnil. unfold GenerateContent.
    destruct (buildParams m req) as [params|]; [|done].
    assert (Hsome : is_Some (Some params)) by (by eexists).
    apply Hiff in Hsome. congruence.
Qed.

(** The options of the call parameters: the model is the adapter's name;
    without a config everything else keeps its default; with a config the
    stop sequences are passed on, the temperature and top-p are converted
    to [float64], the tools are those of [extractTools], and the tool
    choice (automatic, parallel tool use disabled) is set exactly when
    there is at least one tool. *)
Theorem buildParams_options m req params :
  buildParams m req = Some params →
  Model params = name m ∧
  (ToolChoice params = None ↔ ParamTools params = []) ∧
  (∀ tc, ToolChoice params = Some tc →
         tc = {| tcType := "auto"; tcDisableParallelToolUse := true |}) ∧
  (length (System params) ≤ 1)%nat ∧
  match Config req with
  | None =>
      MaxTokens params = defaultMaxTokens ∧ System params = [] ∧
      ParamTemperature params = None ∧ ParamTopP params = None ∧
      ParamStopSequences params = [] ∧ ParamTools params = []
  | Some cfg =>
      ParamStopSequences params = StopSequences cfg ∧
      ParamTemperature params =
        GoFloat.float64_of_float32 <$> Temperature cfg ∧
      ParamTopP params = GoFloat.float64_of_float32 <$> TopP cfg ∧
      extractTools (Tools cfg) = Some (ParamTools params)
  end.
Proof.
  intros Hp. destruct (buildParams_fields _ _ _ Hp) as (msgs & _ & Hcfg).
  destruct (Config req) as [cfg|].
  - destruct Hcfg as (sys & tools & Hsys & Htools & ->). simpl.
    split_and!; try done.
    + by destruct tools.
    + intros tc. destruct tools; [done|]. by intros [= <-].
    + destruct (SystemInstruction cfg) as [c|]; [|subst; simpl; lia].
      destruct (systemFromContent_shape _ _ Hsys)
        as [[->|(text & -> & _)] _]; simpl; lia.
  - rewrite Hcfg. simpl. split_and!; try done. lia.
Qed.

End BuildParamsMore.

Lemma buildParams_options_witness :
  ∃ params,
    @buildParams Example.codec (Example.claude Example.provider)
      Example.request = Some params ∧
    Model params = "claude-sonnet-4-5-20250929" ∧
    (ToolChoice params = None ↔ ParamTools params = []).
Proof.
  destruct (@buildParams_total Example.codec
              (Example.claude Example.provider) Example.request)
    as [params Hp]; [vm_compute; reflexivity|].
  exists params. split; [exact Hp|].
  destruct (@buildParams_options Example.codec
              (Example.claude Example.provider) Example.request params Hp)
    as (Hm & Htc & _).
  split; [exact Hm|exact Htc].
Defined.

(** ** The response mapper, further *)

Section ResponseMapperMore.

Context `{JSONCodec}.

Lemma messageToLLMResponse_loop_one block :
  messageToLLMResponse_loop [block] [] =
  if decide (cbType block = "text") then
    [Some {| Text := cbText block; PartFunctionCall := None;
             PartFunctionResponse := None |}]
  else if decide (cbType block = "tool_use") then [Some (toolUsePart block)]
  else [].
Proof. simpl. by repeat case_decide. Qed.

Lemma messageToLLMResponse_loop_cons block rest :
  messageToLLMResponse_loop (block :: rest) [] =
  messageToLLMResponse_loop [block] [] ++ messageToLLMResponse_loop rest [].
Proof.
  change (block :: rest) with ([block] ++ rest).
  apply messageToLLMResponse_loop_app.
Qed.

Lemma messageToLLMResponse_loop_mapped content :
  messageToLLMResponse_loop content [] = content ≫= mappedParts.
Proof.
  induction content as [|block rest IH]; [done|].
  rewrite messageToLLMResponse_loop_cons, messageToLLMResponse_loop_one, IH.
  done.
Qed.

(** The content of a mapped reply: its role is "model" and its parts are
    those of the reply's blocks, block by block and in the order of the
    blocks: a text part with the block's text for a text block, a
    function-call part with the block's id, name and decoded input for a
    tool_use block, nothing for a block of another type. So it has one
    non-nil part per text or tool_use block, no part holds a function
    response, and its text is the text of the reply's text blocks. The
    response is neither partial nor marked as completing the turn. *)
Theorem messageToLLMResponse_content msg :
  let parts := MsgContent msg ≫= mappedParts in
  respContent (messageToLLMResponse msg) =
    Some {| Role := "model"; Parts := parts |} ∧
  length parts = length (filter mapped (MsgContent msg)) ∧
  Forall (λ p, ∃ part, p = Some part ∧
                       PartFunctionResponse part = None) parts ∧
  partsText parts = messageText msg ∧
  Partial (messageToLLMResponse msg) = false ∧
  TurnComplete (messageToLLMResponse msg) = false.
Proof.
  simpl. rewrite <- messageToLLMResponse_loop_mapped.
  split_and!; try done.
  - induction (MsgContent msg) as [|block rest IH]; [done|].
    rewrite messageToLLMResponse_loop_cons, length_app, IH.
    rewrite messageToLLMResponse_loop_one, filter_cons. unfold mapped.
    repeat case_decide; simpl; try done; intuition congruence.
  - induction (MsgContent msg) as [|block rest IH]; [done|].
    rewrite messageToLLMResponse_loop_cons. apply Forall_app. split; [|done].
    rewrite messageToLLMResponse_loop_one.
    repeat case_decide; repeat constructor; by eexists.
  - apply (messageToLLMResponse_text msg).
Qed.

Lemma partsToBlocks_replay_one block :
  partsToBlocks (messageToLLMResponse_loop [block] []) =
  Some (replayBlock block).
Proof.
  rewrite messageToLLMResponse_loop_one. unfold replayBlock, partsToBlocks.
  repeat case_decide; simpl; try done.
  - by rewrite decide_False by (intros Hne; by apply Hne).
  - by rewrite decide_True.
Qed.

Lemma partsToBlocks_replay content :
  partsToBlocks (messageToLLMResponse_loop content []) =
  Some (content ≫= replayBlock).
Proof.
  induction content as [|block rest IH]; [done|].
  rewrite messageToLLMResponse_loop_cons, partsToBlocks_app.
  by rewrite partsToBlocks_replay_one, IH.
Qed.

(** A mapped reply sent again as history: its content becomes one
    assistant message that repeats the reply's non-empty text blocks and
    its tool_use blocks (with the arguments decoded from their input), in
    order; a reply without any such block leaves no message. *)
Theorem reply_as_history msg :
  contentsToMessages [respContent (messageToLLMResponse msg)] =
  Some match MsgContent msg ≫= replayBlock with
       | [] => []
       | blocks => [NewAssistantMessage blocks]
       end.
Proof.
  simpl.
  destruct (MsgContent msg ≫= replayBlock) as [|b blocks] eqn:Hr.
  - rewrite contentsToMessages_no_block; [done|].
    simpl. by rewrite partsToBlocks_replay, Hr.
  - erewrite contentsToMessages_block.
    + reflexivity.
    + simpl. by rewrite partsToBlocks_replay, Hr.
    + done.
Qed.

End ResponseMapperMore.

(** ** Streaming, further *)

Section StreamingMore.

Context `{JSONCodec}.

Local Arguments textDeltas : simpl never.

(** The shape of what the loop adds to what was yielded before. *)
Lemma generateStream_loop_shape yield events err msg out :
  ∃ deltas tail,
    generateStream_loop yield events err msg out =
      out ++ partials deltas ++ tail ∧
    deltas `prefix_of` textDeltas events ∧
    StreamEnd tail.
Proof.
  revert msg out. induction events as [|e rest IH]; intros msg out; simpl.
  - destruct err as [serr|].
    + exists [], [(None, Some (Errorf_w "claude: stream: " serr))].
      split_and!; [done|done|]. apply EndError. by right.
    + eexists [], [_]. split_and!; [done|done|]. by apply EndFinal.
  - destruct (Accumulate msg e) as [msg1|aerr].
    + rewrite (textDeltas_cons e rest), textDeltas_one.
      destruct (textDelta e) as [d [|]]; simpl.
      * destruct (yield (out ++ [(Some (partialResponse d), None)])).
        -- destruct (IH msg1 (out ++ [(Some (partialResponse d), None)]))
             as (deltas & tail & -> & Hpre & Hend).
           exists (d :: deltas), tail. split_and!; [|by apply prefix_cons|done].
           by rewrite <- app_assoc.
        -- exists [d], []. split_and!.
           ++ done.
           ++ by apply prefix_cons, prefix_nil.
           ++ constructor.
      * apply IH.
    + exists [], [(None, Some (Errorf_w "claude: accumulate: " aerr))].
      split_and!; [done|apply prefix_nil|]. apply EndError. by left.
Qed.

(** Whatever the stream and the consumer, streaming yields partial
    responses for an initial segment of the stream's text deltas, in
    order, and then ends in one of three ways: with nothing more, with the
    one response that has [TurnComplete] set, or with one error wrapped
    under "claude: accumulate: " or "claude: stream: ". So every pair
    yielded holds a response or an error and never both, and an error or
    a completed turn is always the last thing yielded. *)
Theorem generateStream_yields m params yield :
  ∃ deltas tail,
    generateStream m params yield = partials deltas ++ tail ∧
    deltas `prefix_of`
      textDeltas (stEvents (MessagesNewStreaming (client m) params)) ∧
    StreamEnd tail ∧
    Forall (λ y : Yielded, (is_Some y.1 ∧ y.2 = None) ∨
                           (y.1 = None ∧ is_Some y.2))
      (generateStream m params yield).
Proof.
  unfold generateStream.
  destruct (generateStream_loop_shape yield
              (stEvents (MessagesNewStreaming (client m) params))
              (stErr (MessagesNewStreaming (client m) params)) zeroMessage [])
    as (deltas & tail & -> & Hpre & Hend).
  exists deltas, tail. split_and!; try done.
  simpl. apply Forall_app. split.
  - unfold partials. rewrite Forall_fmap. apply Forall_true. intros d. simpl.
    left. split; [by eexists|done].
  - destruct Hend as [|resp Ht Hp|prefix e Hprefix].
    + constructor.
    + apply Forall_singleton. left. split; [by eexists|done].
    + apply Forall_singleton. right. split; [done|by eexists].
Qed.

Lemma generateStream_loop_prefix yield events err msg out :
  generateStream_loop yield events err msg out `prefix_of`
  generateStream_loop drain events err msg out.
Proof.
  revert msg out. induction events as [|e rest IH]; intros msg out; simpl.
  - done.
  - destruct (Accumulate msg e) as [msg1|aerr]; [|done].
    destruct (textDelta e) as [d [|]]; [|apply IH].
    destruct (yield (out ++ [(Some (partialResponse d), None)])); [apply IH|].
    destruct (generateStream_loop_shape drain rest err msg1
                (out ++ [(Some (partialResponse d), None)]))
      as (deltas & tail & -> & _ & _).
    by apply prefix_app_r.
Qed.

(** A consumer that stops only cuts the iteration short: what it is
    yielded is an initial segment of what a consumer that never stops is
    yielded on the same stream. *)
Theorem generateStream_stop_is_prefix m params yield :
  generateStream m params yield `prefix_of` generateStream m params drain.
Proof. apply generateStream_loop_prefix. Qed.

Lemma generateStream_loop_accumulate_error pre e post err msg msg1 aerr out :
  accumulateAll msg pre = inl msg1 →
  Accumulate msg1 e = inr aerr →
  generateStream_loop drain (pre ++ e :: post) err msg out =
  out ++ partials (textDeltas pre) ++
  [(None, Some (Errorf_w "claude: accumulate: " aerr))].
Proof.
  revert msg out. induction pre as [|e0 pre IH]; intros msg out; simpl.
  - intros [= <-] ->. done.
  - destruct (Accumulate msg e0) as [msg0|]; [|done].
    intros Hall Hacc. rewrite (textDeltas_cons e0 pre), textDeltas_one.
    destruct (textDelta e0) as [d [|]]; simpl.
    + rewrite (IH _ _ Hall Hacc). by rewrite <- app_assoc.
    + by apply IH.
Qed.

(** When the accumulator rejects an event, streaming yields the partial
    responses of the text deltas before that event and then the
    accumulator's error wrapped under "claude: accumulate: "; the
    rejected event's own delta, the events after it, the stream's error
    and the last response are not yielded. *)
Theorem generateStream_accumulate_error m params pre e post msg aerr :
  stEvents (MessagesNewStreaming (client m) params) = pre ++ e :: post →
  accumulateAll zeroMessage pre = inl msg →
  Accumulate msg e = inr aerr →
  generateStream m params drain =
    partials (textDeltas pre) ++
    [(None, Some (Errorf_w "claude: accumulate: " aerr))] ∧
  Error (Errorf_w "claude: accumulate: " aerr) =
    "claude: accumulate: " +:+ Error aerr ∧
  Unwrap (Errorf_w "claude: accumulate: " aerr) = Some aerr.
Proof.
  intros Hev Hall Hacc. unfold generateStream. rewrite Hev.
  by rewrite (generateStream_loop_accumulate_error _ _ _ _ _ _ _ _ Hall Hacc).
Qed.

Lemma generateStream_loop_stream_error events serr msg msg' out :
  accumulateAll msg events = inl msg' →
  generateStream_loop drain events (Some serr) msg out =
  out ++ partials (textDeltas events) ++
  [(None, Some (Errorf_w "claude: stream: " serr))].
Proof.
  revert msg out. induction events as [|e rest IH]; intros msg out; simpl.
  - by intros _.
  - destruct (Accumulate msg e) as [msg1|]; [|done].
    intros Hall. rewrite (textDeltas_cons e rest), textDeltas_one.
    destruct (textDelta e) as [d [|]]; simpl.
    + rewrite (IH _ _ Hall). by rewrite <- app_assoc.
    + by apply IH.
Qed.

(** When the stream ends with an error after events that the accumulator
    accepted, streaming yields the partial responses of all their text
    deltas and then the stream's error wrapped under "claude: stream: ";
    the accumulated message is not yielded. *)
Theorem generateStream_stream_error m params msg serr :
  stErr (MessagesNewStreaming (client m) params) = Some serr →
  accumulateAll zeroMessage
    (stEvents (MessagesNewStreaming (client m) params)) = inl msg →
  generateStream m params drain =
    partials (textDeltas (stEvents (MessagesNewStreaming (client m) params)))
    ++ [(None, Some (Errorf_w "claude: stream: " serr))] ∧
  Error (Errorf_w "claude: stream: " serr) =
    "claude: stream: " +:+ Error serr ∧
  Unwrap (Errorf_w "claude: stream: " serr) = Some serr.
Proof.
  intros Herr Hall. unfold generateStream. rewrite Herr.
  by rewrite (generateStream_loop_stream_error _ _ _ _ _ Hall).
Qed.

End StreamingMore.

Lemma generateStream_accumulate_error_witness :
  @generateStream Example.codec
    (Example.claude (Example2.streaming Example2.orphanDelta))
    Example.someParams drain =
  [(None, Some (Errorf_w "claude: accumulate: "
                  (noContentBlock "content_block_delta")))].
Proof.
  apply (@generateStream_accumulate_error Example.codec
           (Example.claude (Example2.streaming Example2.orphanDelta))
           Example.someParams [] (Example.textDeltaEvent "Hello") []
           zeroMessage (noContentBlock "content_block_delta"));
    reflexivity.
Defined.

Lemma generateStream_stream_error_witness :
  @generateStream Example.codec
    (Example.claude (Example2.streaming Example2.brokenStream))
    Example.someParams drain =
  [(Some (partialResponse "Hello"), None);
   (None, Some (Errorf_w "claude: stream: " Example2.connectionReset))].
Proof.
  apply (@generateStream_stream_error Example.codec
           (Example.claude (Example2.streaming Example2.brokenStream))
           Example.someParams
           {| MsgContent := [Example.textBlock "Hello"];
              StopReason := EmptyString;
              MsgUsage := {| InputTokens := 0; OutputTokens := 0 |} |}
           Example2.connectionReset); reflexivity.
Defined.

(** ** Token usage, further *)

(** Counts that fit: when the input and output tokens are not negative
    and their sum is below 2^31, the usage metadata holds exactly the
    input tokens, the output tokens and their sum. *)
Theorem usageToMetadata_in_range (u : Usage) :
  0 <= InputTokens u → 0 <= OutputTokens u →
  InputTokens u + OutputTokens u < 2 ^ 31 →
  usageToMetadata u =
    {| PromptTokenCount := InputTokens u;
       CandidatesTokenCount := OutputTokens u;
       TotalTokenCount := InputTokens u + OutputTokens u |}.
Proof. apply usageToMetadata_exact. Qed.

Lemma usageToMetadata_in_range_witness :
  usageToMetadata {| InputTokens := 14; OutputTokens := 4 |} =
  {| PromptTokenCount := 14; CandidatesTokenCount := 4;
     TotalTokenCount := 18 |}.
Proof.
  apply (usageToMetadata_in_range {| InputTokens := 14; OutputTokens := 4 |});
    simpl; lia.
Defined.

(** ** The two versions of [buildParams] *)

Section BuildParamsVersions.

Context `{JSONCodec}.

(** The free function [buildParams] of [convert.go] and the method build
    the same call parameters (and panic on the same requests) for a model
    of the same name, whenever the request has no config or none of its
    function declarations relies on a raw JSON schema alone. *)
Theorem buildParams_versions_agree m req :
  match Config req with
  | Some cfg => noJsonSchemaOnly (Tools cfg) = true
  | None => True
  end →
  convert_buildParams (name m) req = buildParams m req.
Proof.
  intros Hcfg. unfold convert_buildParams, buildParams.
  destruct (logContents (Contents req)); simpl; [|done].
  destruct (contentsToMessages (Contents req)); simpl; [|done].
  destruct (Config req) as [cfg|]; [|done].
  by rewrite (extractTools_loop_no_json _ Hcfg).
Qed.

End BuildParamsVersions.

Lemma buildParams_versions_agree_witness :
  @convert_buildParams Example.codec "claude-sonnet-4-5-20250929"
    Example.request =
  @buildParams Example.codec (Example.claude Example.provider)
    Example.request.
Proof.
  apply (@buildParams_versions_agree Example.codec
           (Example.claude Example.provider) Example.request).
  reflexivity.
Defined.

(** ** Streams without text *)

Section StreamingNoText.

Context `{JSONCodec}.

Local Arguments textDeltas : simpl never.

Lemma generateStream_loop_no_text yield events err msg out :
  textDeltas events = [] →
  ∃ y, generateStream_loop yield events err msg out = out ++ [y] ∧
       StreamEnd [y].
Proof.
  revert msg out. induction events as [|e rest IH]; intros msg out; simpl.
  - intros _. destruct err as [serr|].
    + eexists. split; [done|]. apply EndError. by right.
    + eexists. split; [done|]. by apply EndFinal.
  - rewrite (textDeltas_cons e rest), textDeltas_one.
    intros [He Hrest]%app_eq_nil.
    destruct (Accumulate msg e) as [msg1|aerr].
    + destruct (textDelta e) as [d [|]]; [done|]. by apply IH.
    + eexists. split; [done|]. apply EndError. by left.
Qed.

(** A stream without any text delta (a turn that only calls tools, say)
    yields exactly one pair, whatever the consumer does: the last response
    or a wrapped error; the consumer is never asked whether to go on. *)
Theorem generateStream_no_text m params yield :
  textDeltas (stEvents (MessagesNewStreaming (client m) params)) = [] →
  ∃ y, generateStream m params yield = [y] ∧ StreamEnd [y] ∧
       generateStream m params yield = generateStream m params drain.
Proof.
  intros Hno. unfold generateStream.
  destruct (generateStream_loop_no_text yield _
              (stErr (MessagesNewStreaming (client m) params))
              zeroMessage [] Hno) as (y & Hy & Hend).
  exists y. split_and!; try done.
  rewrite Hy. symmetry.
  pose proof (generateStream_loop_prefix yield
                (stEvents (MessagesNewStreaming (client m) params))
                (stErr (MessagesNewStreaming (client m) params))
                zeroMessage []) as Hpre.
  rewrite Hy in Hpre.
  destruct (generateStream_loop_no_text drain _
              (stErr (MessagesNewStreaming (client m) params))
              zeroMessage [] Hno) as (y' & Hy' & _).
  rewrite Hy' in Hpre |- *. simpl in *.
  destruct Hpre as [k Hk]. by injection Hk as ->.
Qed.

End StreamingNoText.

Lemma generateStream_no_text_witness :
  ∃ y,
    @generateStream Example.codec
      (Example.claude
         (Example2.streaming
            {| stEvents := [Example.blockStart Example.toolUseBlock;
                            Example.messageDelta StopReasonToolUse 7];
               stErr := None |}))
      Example.someParams Example.stopAtFirst = [y].
Proof.
  destruct (@generateStream_no_text Example.codec
              (Example.claude
                 (Example2.streaming
                    {| stEvents := [Example.blockStart Example.toolUseBlock;
                                    Example.messageDelta StopReasonToolUse 7];
                       stErr := None |}))
              Example.someParams Example.stopAtFirst) as (y & Hy & _).
  - reflexivity.
  - exists y. exact Hy.
Defined.
